(** * kivy/uix/textinput.py: line model, reflow and coordinate mapping

    A shallow embedding of the text-layout core of [TextInput]
    (src/kivy/uix/textinput.py): the tokenizer, [_split_smart], the
    incremental path of [_refresh_text], the flat-index / (col, row)
    conversions, row expansion, [select_text], [replace_text] and the cursor
    setter.  Python [str] is a list of characters, Python [int] is [Z],
    break flags are bit sets in [Z]. *)

From Stdlib Require Import ZArith Ascii String List Bool Lia.
Import ListNotations.
Open Scope Z_scope.

(** ** Python values *)

Definition str := list ascii.

Definition nl : ascii := "010"%char.

(** A literal, for examples. *)
Definition s (x : string) : str := list_ascii_of_string x.

Definition len {A : Type} (l : list A) : Z := Z.of_nat (length l).

Fixpoint str_eqb (a b : str) : bool :=
  match a, b with
  | [], [] => true
  | x :: a', y :: b' => Ascii.eqb x y && str_eqb a' b'
  | _, _ => false
  end.

(** Exceptions a modelled method can raise, and the outcome of a call. *)
Inductive exn : Type :=
| IndexError
| Exception (msg : string).

Inductive result (A : Type) : Type :=
| Ok (a : A)
| Raise (e : exn).
Arguments Ok {A} a.
Arguments Raise {A} e.

Definition rbind {A B : Type} (r : result A) (k : A -> result B) : result B :=
  match r with
  | Ok a => k a
  | Raise e => Raise e
  end.

(** What a method hands back: [None], or a boolean. *)
Inductive retval : Type :=
| RNone
| RBool (b : bool).

(** [l[a:b]] for indices that are already non-negative. *)
Definition substring {A : Type} (a b : nat) (l : list A) : list A :=
  firstn (b - a) (skipn a l).

(** How a slice bound is read against a sequence of length [n]: negative
    bounds count from the end, and everything is clipped into [0, n]. *)
Definition slice_bound (n i : Z) : Z :=
  if i <? 0 then Z.max 0 (i + n) else Z.min i n.

(** [l[lo:hi]], a missing bound being the matching end. *)
Definition slice {A : Type} (l : list A) (lo hi : option Z) : list A :=
  let n := len l in
  let a := match lo with Some i => slice_bound n i | None => 0 end in
  let b := match hi with Some j => slice_bound n j | None => n end in
  substring (Z.to_nat a) (Z.to_nat b) l.

(** [l[i]]: negative indices count from the end, anything else out of range
    is an [IndexError]. *)
Definition getitem {A : Type} (l : list A) (i : Z) : result A :=
  let n := len l in
  if (i <? - n) || (n <=? i) then Raise IndexError
  else match nth_error l (Z.to_nat (if i <? 0 then i + n else i)) with
       | Some a => Ok a
       | None => Raise IndexError
       end.

(** [l[i:j] = chunk]; a stop before the start is moved to the start. *)
Definition setslice {A : Type} (l : list A) (i j : Z) (chunk : list A)
  : list A :=
  let n := len l in
  let a := slice_bound n i in
  let b := Z.max a (slice_bound n j) in
  firstn (Z.to_nat a) l ++ chunk ++ skipn (Z.to_nat b) l.

(** [l[i:] = chunk]. *)
Definition setslice_from {A : Type} (l : list A) (i : Z) (chunk : list A)
  : list A :=
  firstn (Z.to_nat (slice_bound (len l) i)) l ++ chunk.

(** Modelled from the spec: [kivy.utils.boundary] is imported by the module
    but its file is not part of the sources at hand; the spec says an
    out-of-range value "is clamped" between the two limits, which is
    [min(max(value, minvalue), maxvalue)]. *)
Definition boundary (value minvalue maxvalue : Z) : Z :=
  Z.min (Z.max value minvalue) maxvalue.

(** [text.split('\n')]. *)
Fixpoint split_nl (text : str) : list str :=
  match text with
  | [] => [[]]
  | c :: rest =>
      if Ascii.eqb c nl then [] :: split_nl rest
      else match split_nl rest with
           | l :: ls => (c :: l) :: ls
           | [] => [[c]]
           end
  end.

(** [text.find(sub) == 0]: [sub] is a prefix of [text]. *)
Fixpoint starts_with (text sub : str) : bool :=
  match sub, text with
  | [], _ => true
  | c :: sub', d :: text' => Ascii.eqb c d && starts_with text' sub'
  | _ :: _, [] => false
  end.

(** [bisect.bisect_left(a, x)], the binary search of the standard library:
    each round halves [hi - lo], so [length a] rounds are enough. *)
Fixpoint bisect_loop (fuel : nat) (a : list Z) (x : Z) (lo hi : nat) : nat :=
  match fuel with
  | O => lo
  | S fuel' =>
      if (lo <? hi)%nat then
        let mid := ((lo + hi) / 2)%nat in
        if nth mid a 0 <? x then bisect_loop fuel' a x (S mid) hi
        else bisect_loop fuel' a x lo mid
      else lo
  end.

Definition bisect_left (a : list Z) (x : Z) : Z :=
  Z.of_nat (bisect_loop (S (length a)) a x 0 (length a)).

(** ** Break flags *)

Definition FL_IS_LINEBREAK : Z := 1.
Definition FL_IS_WORDBREAK : Z := 2.
Definition FL_IS_NEWLINE : Z := Z.lor FL_IS_LINEBREAK FL_IS_WORDBREAK.

(** [flag & mask] read as a condition. *)
Definition has_flag (flag mask : Z) : bool := negb (Z.land flag mask =? 0).

(** ** Widget options and state *)

(** The properties the layout code reads and never writes: [multiline],
    [do_wrap], the wrap width [self.width - padding_left - padding_right],
    and the text measurer behind [_get_text_width] (a cached call to the
    label's [get_extents]), which the layout consumes as a black box.
    Extents are whole numbers of pixels, never negative; the wrap width can
    be any integer (padding can exceed the widget), and a fractional one
    compares with whole widths exactly as its floor does. *)
Record Options : Type := {
  multiline : bool;
  do_wrap : bool;
  width : Z;
  _get_text_width : str -> N
}.

(** The attributes the modelled methods read and write.  Labels, rectangles
    and the other render objects are left out. *)
Record TextInput : Type := {
  _current_text : str;
  _rendered_text : str;
  _lines : list str;
  _lines_flags : list Z;
  _lines_indexes : list Z;
  _cursor : Z * Z;
  _selection_from : option Z;
  _selection_to : option Z;
  _selection_finished : bool;
  _selection : bool;
  scroll_x : Z
}.

(** ** The tokenizer *)

Definition _tokenize_delimiters : str :=
  [" "; "."; ","; ":"; ";"; "!"; "?"; "013"; "009"]%char.

Definition in_delimiters (c : ascii) : bool :=
  existsb (Ascii.eqb c) _tokenize_delimiters.

(** [prev_char in delimiters]; [prev_char] starts as the empty string, which
    is [in] every string. *)
Definition prev_in_delimiters (prev_char : option ascii) : bool :=
  match prev_char with
  | None => true
  | Some c => in_delimiters c
  end.

(** The pending token [text[old_index:index]], yielded when it is not
    empty. *)
Definition pending_token (text : str) (old_index index : nat)
  : list (str * Z) :=
  if (old_index <? index)%nat
  then [(substring old_index index text, Z.of_nat index)]
  else [].

(** The body of [for index, char in enumerate(text)], [rest] being the
    characters still to come, followed by the last [yield]. *)
Fixpoint tokenize_from (text rest : str) (index old_index : nat)
  (prev_char : option ascii) : list (str * Z) :=
  match rest with
  | [] => [(skipn old_index text, len text)]
  | char :: rest' =>
      if negb (in_delimiters char) then
        if negb (Ascii.eqb char nl) then
          if (0 <? index)%nat && prev_in_delimiters prev_char then
            pending_token text old_index index
            ++ tokenize_from text rest' (S index) index (Some char)
          else tokenize_from text rest' (S index) old_index (Some char)
        else
          pending_token text old_index index
          ++ [(substring index (S index) text, Z.of_nat index)]
          ++ tokenize_from text rest' (S index) (S index) (Some char)
      else tokenize_from text rest' (S index) old_index (Some char)
  end.

Definition _tokenize (text : str) : list (str * Z) :=
  tokenize_from text text 0 0 None.

(** ** [_split_smart] *)

(** The locals of the word-wrap loop. *)
Record wrap_state : Type := {
  ws_x : Z;
  ws_flags : Z;
  ws_line : list str;
  ws_line_index : Z;
  ws_lines : list str;
  ws_lines_flags : list Z;
  ws_lines_text_indexes : list Z
}.

(** [for c in word]: the longest prefix whose summed character widths stay
    within the width. *)
Fixpoint split_scan (o : Options) (word : str) (split_width : Z)
  (split_pos : nat) : Z * nat :=
  match word with
  | [] => (split_width, split_pos)
  | c :: rest =>
      let cw := Z.of_N (_get_text_width o [c]) in
      if split_width + cw >? width o then (split_width, split_pos)
      else split_scan o rest (split_width + cw) (S split_pos)
  end.

(** One cut of the word: the fragment becomes a line of its own, under the
    flags in force, and the next line is marked as a word break. *)
Definition push_fragment (st : wrap_state) (fragment : str) (line_index : Z)
  : wrap_state :=
  {| ws_x := ws_x st;
     ws_flags := FL_IS_WORDBREAK;
     ws_line := ws_line st;
     ws_line_index := line_index;
     ws_lines := ws_lines st ++ [fragment];
     ws_lines_flags := ws_lines_flags st ++ [ws_flags st];
     ws_lines_text_indexes := ws_lines_text_indexes st ++ [line_index] |}.

(** [while w > width]: every round that does not break removes at least one
    character from [word], so [length word] rounds can cut and the next one
    leaves the loop. *)
Fixpoint split_word (o : Options) (fuel : nat) (word : str) (w : Z)
  (word_end_index : Z) (st : wrap_state) : wrap_state * str * Z :=
  if w >? width o then
    let '(split_width, split_pos) := split_scan o word 0 0 in
    if (split_width =? Z.of_nat split_pos) && (Z.of_nat split_pos =? 0)
    then (st, word, w)
    else
      match fuel with
      | O => (st, word, w)
      | S fuel' =>
          split_word o fuel' (skipn split_pos word) (w - split_width)
            word_end_index
            (push_fragment st (firstn split_pos word)
               (word_end_index - Z.of_nat split_pos))
      end
  else (st, word, w).

(** Push the current line and start a new one. *)
Definition push_line (st : wrap_state) : wrap_state :=
  {| ws_x := 0;
     ws_flags := 0;
     ws_line := [];
     ws_line_index := ws_line_index st;
     ws_lines := ws_lines st ++ [concat (ws_line st)];
     ws_lines_flags := ws_lines_flags st ++ [ws_flags st];
     ws_lines_text_indexes :=
       ws_lines_text_indexes st ++ [ws_line_index st] |}.

Definition nonempty {A : Type} (l : list A) : bool :=
  match l with
  | [] => false
  | _ :: _ => true
  end.

(** [line.append(word)] with the new running width. *)
Definition append_word (st : wrap_state) (x : Z) (word : str)
  (word_end_index : Z) : wrap_state :=
  {| ws_x := x;
     ws_flags := ws_flags st;
     ws_line := ws_line st ++ [word];
     ws_line_index := word_end_index;
     ws_lines := ws_lines st;
     ws_lines_flags := ws_lines_flags st;
     ws_lines_text_indexes := ws_lines_text_indexes st |}.

Definition set_linebreak (st : wrap_state) : wrap_state :=
  {| ws_x := ws_x st;
     ws_flags := Z.lor (ws_flags st) FL_IS_LINEBREAK;
     ws_line := ws_line st;
     ws_line_index := ws_line_index st;
     ws_lines := ws_lines st;
     ws_lines_flags := ws_lines_flags st;
     ws_lines_text_indexes := ws_lines_text_indexes st |}.

(** The body of [for word, word_end_index in self._tokenize(text)]. *)
Definition wrap_step (o : Options) (st : wrap_state) (token : str * Z)
  : wrap_state :=
  let '(word, word_end_index) := token in
  let is_newline := str_eqb word [nl] in
  let w := Z.of_N (_get_text_width o word) in
  let st1 :=
    if ((ws_x st + w >? width o) && nonempty (ws_line st)) || is_newline
    then push_line st else st in
  if is_newline then set_linebreak st1
  else if (1 <=? width o) && (w >? width o) then
    let '(st2, word', w') :=
      split_word o (S (length word)) word w word_end_index st1 in
    append_word st2 w' word' word_end_index
  else append_word st1 (ws_x st1 + w) word word_end_index.

Definition wrap_init (flags : Z) : wrap_state :=
  {| ws_x := 0;
     ws_flags := flags;
     ws_line := [];
     ws_line_index := 0;
     ws_lines := [];
     ws_lines_flags := [];
     ws_lines_text_indexes := [] |}.

(** The last push, made when a line is pending or a line break is. *)
Definition wrap_finish (st : wrap_state) : list str * list Z * list Z :=
  let st' :=
    if nonempty (ws_line st) || has_flag (ws_flags st) FL_IS_LINEBREAK
    then push_line st else st in
  (ws_lines st', ws_lines_flags st', ws_lines_text_indexes st').

Definition _split_smart (o : Options) (text : str) (flags : Z)
  : list str * list Z * list Z :=
  if negb (multiline o) || negb (do_wrap o) then
    let lines := split_nl text in
    (lines, [0] ++ repeat FL_IS_LINEBREAK (length lines - 1), [])
  else
    wrap_finish (fold_left (wrap_step o) (_tokenize text) (wrap_init flags)).

(** ** Coordinate mapping *)

(** [for _, line, flag in zip(range(n), lines, flags)]: the three run in
    step and the shortest one ends the loop. *)
Fixpoint cursor_index_loop (n : nat) (lines : list str) (flags : list Z)
  (index : Z) : Z :=
  match n, lines, flags with
  | S n', line :: lines', flag :: flags' =>
      let index := index + len line in
      let index :=
        if has_flag flag FL_IS_LINEBREAK then index + 1 else index in
      cursor_index_loop n' lines' flags' index
  | _, _, _ => index
  end.

(** [cursor_index(cursor)]; without an argument the widget's own cursor is
    taken.  An [IndexError] inside the body is caught and answered by 0. *)
Definition cursor_index (st : TextInput) (cursor : option (Z * Z)) : Z :=
  let cursor := match cursor with Some c => c | None => _cursor st end in
  let lines := _lines st in
  if negb (nonempty lines) then 0
  else
    let flags := _lines_flags st in
    let '(index, cursor_row) := cursor in
    let index :=
      cursor_index_loop (Z.to_nat (Z.min cursor_row (len lines)))
        lines flags index in
    match getitem flags cursor_row with
    | Ok flag => if has_flag flag FL_IS_LINEBREAK then index + 1 else index
    | Raise _ => 0
    end.

(** [for row, line in enumerate(lines)] of [get_cursor_from_index]; when the
    lines run out, [row] still names the last one. *)
Fixpoint cursor_from_index_loop (flags : list Z) (index : Z)
  (rest : list str) (row : Z) (i : Z) : result (Z * Z) :=
  match rest with
  | [] => Ok (index, row - 1)
  | line :: rest' =>
      match getitem flags row with
      | Raise e => Raise e
      | Ok flag =>
          let count := i + len line in
          let count' :=
            if has_flag flag FL_IS_LINEBREAK then count + 1 else count in
          let i' := if has_flag flag FL_IS_LINEBREAK then i + 1 else i in
          if count' >=? index then Ok (index - i', row)
          else cursor_from_index_loop flags index rest' (row + 1) count'
      end
  end.

Definition get_cursor_from_index (st : TextInput) (index : Z)
  : result (Z * Z) :=
  let index := boundary index 0 (len (_current_text st)) in
  if index <=? 0 then Ok (0, 0)
  else if negb (nonempty (_lines st)) then Ok (0, 0)
  else cursor_from_index_loop (_lines_flags st) index (_lines st) 0 0.

(** ** Row expansion *)

(** [while rfrom > 0 and not (flags[rfrom - 1] & FL_IS_NEWLINE)]; [rfrom]
    falls by one each round, so [rfrom] rounds are enough. *)
Fixpoint expand_left (fuel : nat) (flags : list Z) (rfrom : Z) : result Z :=
  if 0 <? rfrom then
    match getitem flags (rfrom - 1) with
    | Raise e => Raise e
    | Ok flag =>
        if has_flag flag FL_IS_NEWLINE then Ok rfrom
        else match fuel with
             | O => Ok rfrom
             | S fuel' => expand_left fuel' flags (rfrom - 1)
             end
    end
  else Ok rfrom.

(** [while 0 < rto < rmax and not (flags[rto - 1] & FL_IS_NEWLINE)]; [rto]
    grows by one each round, so [rmax - rto] rounds are enough. *)
Fixpoint expand_right (fuel : nat) (flags : list Z) (rmax rto : Z)
  : result Z :=
  if (0 <? rto) && (rto <? rmax) then
    match getitem flags (rto - 1) with
    | Raise e => Raise e
    | Ok flag =>
        if has_flag flag FL_IS_NEWLINE then Ok rto
        else match fuel with
             | O => Ok rto
             | S fuel' => expand_right fuel' flags rmax (rto + 1)
             end
    end
  else Ok rto.

Definition _expand_rows (st : TextInput) (rfrom : Z) (rto : option Z)
  : result (Z * Z) :=
  let rto :=
    match rto with
    | None => rfrom + 1
    | Some r => if r =? rfrom then rfrom + 1 else r
    end in
  let lines := _lines st in
  let flags := rev (_lines_flags st) in
  rbind (expand_left (Z.to_nat rfrom) flags rfrom) (fun rfrom =>
  let rmax := len lines - 1 in
  rbind (expand_right (Z.to_nat (rmax - rto)) flags rmax rto) (fun rto =>
  Ok (Z.max 0 rfrom, Z.min rmax rto))).

Definition _expand_range (st : TextInput) (ifrom : Z) (ito : option Z)
  : result (Z * Z) :=
  let ito := match ito with Some i => i | None => ifrom end in
  rbind (get_cursor_from_index st ifrom) (fun cfrom =>
  let rfrom := snd cfrom in
  rbind (get_cursor_from_index st ito) (fun cto =>
  let '(rtcol, rto) := cto in
  rbind (_expand_rows st rfrom
           (Some (if rtcol =? 0 then rto else rto + 1))) (fun rows =>
  let '(rfrom, rto) := rows in
  Ok (cursor_index st (Some (0, rfrom)),
      cursor_index st (Some (0, rto)))))).

(** ** Methods that write the widget *)

(** A method that can change the widget and can raise: it hands back its
    outcome together with the widget as the call left it. *)
Definition M (A : Type) : Type := TextInput -> result A * TextInput.

Definition ret {A : Type} (a : A) : M A := fun st => (Ok a, st).

Definition raise {A : Type} (e : exn) : M A := fun st => (Raise e, st).

Definition bind {A B : Type} (m : M A) (k : A -> M B) : M B :=
  fun st =>
    match m st with
    | (Ok a, st') => k a st'
    | (Raise e, st') => (Raise e, st')
    end.

Definition read {A : Type} (f : TextInput -> result A) : M A :=
  fun st => (f st, st).

Definition write (f : TextInput -> TextInput) : M unit :=
  fun st => (Ok tt, f st).

Notation "x <- m ;; k" := (bind m (fun x => k))
  (at level 61, m at next level, right associativity).
Notation "m ;;; k" := (bind m (fun _ => k))
  (at level 61, right associativity).

Definition with_cursor (c : Z * Z) (st : TextInput) : TextInput :=
  {| _current_text := _current_text st;
     _rendered_text := _rendered_text st;
     _lines := _lines st;
     _lines_flags := _lines_flags st;
     _lines_indexes := _lines_indexes st;
     _cursor := c;
     _selection_from := _selection_from st;
     _selection_to := _selection_to st;
     _selection_finished := _selection_finished st;
     _selection := _selection st;
     scroll_x := scroll_x st |}.

Definition with_scroll_x (x : Z) (st : TextInput) : TextInput :=
  {| _current_text := _current_text st;
     _rendered_text := _rendered_text st;
     _lines := _lines st;
     _lines_flags := _lines_flags st;
     _lines_indexes := _lines_indexes st;
     _cursor := _cursor st;
     _selection_from := _selection_from st;
     _selection_to := _selection_to st;
     _selection_finished := _selection_finished st;
     _selection := _selection st;
     scroll_x := x |}.

Definition with_current_text (text : str) (st : TextInput) : TextInput :=
  {| _current_text := text;
     _rendered_text := _rendered_text st;
     _lines := _lines st;
     _lines_flags := _lines_flags st;
     _lines_indexes := _lines_indexes st;
     _cursor := _cursor st;
     _selection_from := _selection_from st;
     _selection_to := _selection_to st;
     _selection_finished := _selection_finished st;
     _selection := _selection st;
     scroll_x := scroll_x st |}.

Definition with_rendered_text (text : str) (st : TextInput) : TextInput :=
  {| _current_text := _current_text st;
     _rendered_text := text;
     _lines := _lines st;
     _lines_flags := _lines_flags st;
     _lines_indexes := _lines_indexes st;
     _cursor := _cursor st;
     _selection_from := _selection_from st;
     _selection_to := _selection_to st;
     _selection_finished := _selection_finished st;
     _selection := _selection st;
     scroll_x := scroll_x st |}.

Definition with_model (lines : list str) (flags indexes : list Z)
  (st : TextInput) : TextInput :=
  {| _current_text := _current_text st;
     _rendered_text := _rendered_text st;
     _lines := lines;
     _lines_flags := flags;
     _lines_indexes := indexes;
     _cursor := _cursor st;
     _selection_from := _selection_from st;
     _selection_to := _selection_to st;
     _selection_finished := _selection_finished st;
     _selection := _selection st;
     scroll_x := scroll_x st |}.

Definition with_selection (from to : Z) (finished selection : bool)
  (st : TextInput) : TextInput :=
  {| _current_text := _current_text st;
     _rendered_text := _rendered_text st;
     _lines := _lines st;
     _lines_flags := _lines_flags st;
     _lines_indexes := _lines_indexes st;
     _cursor := _cursor st;
     _selection_from := Some from;
     _selection_to := Some to;
     _selection_finished := finished;
     _selection := selection;
     scroll_x := scroll_x st |}.

(** The cursor setter.  With no line at all it only schedules a refresh;
    otherwise the clamped pair is what the widget holds afterwards, whether
    the assignment ran or the pair was already there.  The scheduled
    viewport adjustment and the setter's own return value, which only tells
    the property machinery whether to dispatch, are left out. *)
Definition _set_cursor (pos : Z * Z) : M unit :=
  fun st =>
    let l := _lines st in
    if negb (nonempty l) then (Ok tt, st)
    else
      let cr := boundary (snd pos) 0 (len l - 1) in
      match getitem l cr with
      | Raise e => (Raise e, st)
      | Ok line =>
          let cc := boundary (fst pos) 0 (len line) in
          (Ok tt, with_cursor (cc, cr) st)
      end.

(** [_update_graphics_selection], as far as the line model goes: with a
    selection, the cursors of its two ends, in order, are looked up, and an
    [IndexError] of the lookup is not caught.  [sorted] cannot order an end
    that was never set.  The rectangles and handles then drawn on the canvas
    are not part of this model. *)
Definition _update_graphics_selection : M unit :=
  fun st =>
    if negb (_selection st) then (Ok tt, st)
    else
      match _selection_from st, _selection_to st with
      | Some from, Some to =>
          (read (fun st => get_cursor_from_index st (Z.min from to)) ;;;
           read (fun st => get_cursor_from_index st (Z.max from to)) ;;;
           ret tt) st
      | _, _ =>
          (Raise (Exception "'<' not supported for 'NoneType'"), st)
      end.

(** [select_text], with [_update_selection(True)] unfolded: both ends are
    stored clamped, the selection is finished, and it counts as a selection
    when the two ends differ; the selection is then drawn. *)
Definition select_text (start end_ : Z) : M retval :=
  fun st =>
    if end_ <? start
    then (Raise (Exception "end must be superior to start"), st)
    else
      let text_length := len (_current_text st) in
      let a := boundary start 0 text_length in
      let b := boundary end_ 0 text_length in
      let lo := if a >? b then b else a in
      let hi := if a >? b then a else b in
      (_update_graphics_selection ;;; ret RNone)
        (with_selection a b true (negb (hi - lo =? 0)) st).

(** ** [_refresh_text] *)

Inductive requestor : Type :=
| textinput
| property.

(** One entry of [difflib.SequenceMatcher(...).get_opcodes()]. *)
Inductive tag : Type :=
| tag_equal
| tag_delete
| tag_insert
| tag_replace.

Definition opcode : Type := tag * Z * Z * Z * Z.

(** Where the re-wrap starts: the line to replace from, the text offset to
    split from, and the flags the first re-wrapped line starts under.  With
    fewer than two recorded offsets, or a new text that does not begin with
    the rendered one, that is the very beginning. *)
Definition incremental_start (st : TextInput) (text : str)
  : result (Z * Z * Z) :=
  if (1 <? len (_lines_indexes st)) && starts_with text (_rendered_text st)
  then
    let insertion_point :=
      bisect_left (_lines_indexes st) (len (_rendered_text st)) in
    if 1 <? insertion_point then
      let last_untouched_line := insertion_point - 2 in
      rbind (getitem (_lines_indexes st) last_untouched_line)
        (fun start_text_index =>
      let replace_from_line := last_untouched_line + 1 in
      rbind (getitem (_lines_flags st) replace_from_line) (fun flags =>
      rbind (getitem text start_text_index) (fun c =>
      Ok (replace_from_line,
          if Ascii.eqb c nl then start_text_index + 1 else start_text_index,
          flags))))
    else Ok (0, 0, 0)
  else Ok (0, 0, 0).

(** The loop over the opcodes: each one is shifted by [replace_from_line]
    and applied to [self._lines] as the loop has left it so far. *)
Fixpoint apply_opcodes (ops : list opcode) (replace_from_line : Z)
  (new_lines self_lines : list str) : list str :=
  match ops with
  | [] => self_lines
  | (t, i1, i2, j1, j2) :: ops' =>
      let i1 := i1 + replace_from_line in
      let i2 := i2 + replace_from_line in
      let j1 := j1 + replace_from_line in
      let j2 := j2 + replace_from_line in
      match t with
      | tag_equal =>
          apply_opcodes ops' replace_from_line new_lines self_lines
      | tag_delete =>
          apply_opcodes ops' replace_from_line new_lines
            (setslice self_lines i1 i2 [])
      | tag_insert | tag_replace =>
          apply_opcodes ops' replace_from_line new_lines
            (setslice self_lines i1 i2 (slice new_lines (Some j1) (Some j2)))
      end
  end.

(** The line model after the [requestor == "textinput"] branch.
    [get_opcodes a b] stands for the standard library's
    [difflib.SequenceMatcher(isjunk=None, a=a, b=b).get_opcodes()]. *)
Definition refresh_lines_textinput (o : Options)
  (get_opcodes : list str -> list str -> list opcode) (text : str)
  : M unit :=
  start <- read (fun st => incremental_start st text) ;;
  let '(replace_from_line, start_text_index, flags) := start in
  let '(new_lines, new_flags, new_indexes) :=
    _split_smart o (slice text (Some start_text_index) None) flags in
  write (fun st =>
    let lines :=
      slice (_lines st) None (Some replace_from_line) ++ new_lines in
    let ops :=
      get_opcodes (slice (_lines st) (Some replace_from_line) None)
                  (slice lines (Some replace_from_line) None) in
    with_model
      (apply_opcodes ops replace_from_line lines (_lines st))
      (setslice_from (_lines_flags st) replace_from_line new_flags)
      (setslice_from (_lines_indexes st) replace_from_line
         (map (fun ix => start_text_index + ix) new_indexes))
      st).

(** The line model after the [requestor == "property"] branch. *)
Definition refresh_lines_property (o : Options) (text : str) : M unit :=
  write (fun st =>
    let '(lines, flags, indexes) := _split_smart o text 0 in
    with_model lines flags indexes st).

Definition _refresh_text (o : Options)
  (get_opcodes : list str -> list str -> list opcode) (text : str)
  (req : requestor) : M unit :=
  cursor_index_before <- read (fun st => Ok (cursor_index st None)) ;;
  match req with
  | textinput => refresh_lines_textinput o get_opcodes text
  | property => refresh_lines_property o text
  end ;;;
  previous_cursor_row <- read (fun st => Ok (snd (_cursor st))) ;;
  cursor <- read (fun st => get_cursor_from_index st cursor_index_before) ;;
  _set_cursor cursor ;;;
  write (fun st =>
    if snd (_cursor st) =? previous_cursor_row then st
    else with_scroll_x 0 st) ;;;
  write (with_rendered_text text).

(** ** [replace_text] *)

(** The text [replace_text] builds before it compares. *)
Definition replaced_text (current substring : str) (start_index end_index : Z)
  : str :=
  let lenght := Z.abs (start_index - end_index) in
  slice current None (Some start_index)
  ++ substring
  ++ slice current (Some (start_index + lenght)) None.

Definition replace_text (o : Options)
  (get_opcodes : list str -> list str -> list opcode) (substring : str)
  (start_index end_index : option Z) (move_cursor_at_end : bool)
  : M retval :=
  fun st =>
    let start_index :=
      match start_index with Some i => i | None => 0 end in
    let end_index :=
      match end_index with
      | Some i => i
      | None => len (_current_text st)
      end in
    let _tmptext :=
      replaced_text (_current_text st) substring start_index end_index in
    if str_eqb (_current_text st) _tmptext then (Ok RNone, st)
    else
      (write (with_current_text _tmptext) ;;;
       _refresh_text o get_opcodes _tmptext textinput ;;;
       (if move_cursor_at_end then
          cursor <- read (fun st => get_cursor_from_index st end_index) ;;
          _set_cursor cursor
        else ret tt) ;;;
       ret RNone) st.

(** ** Options and widgets for the examples *)

(** Every character one unit wide. *)
Definition unit_width (text : str) : N := N.of_nat (length text).

Definition wrap_at (w : Z) : Options :=
  {| multiline := true; do_wrap := true; width := w;
     _get_text_width := unit_width |}.

Definition no_wrap : Options :=
  {| multiline := true; do_wrap := false; width := 100;
     _get_text_width := unit_width |}.

(** The widget right after a full reflow of [text]. *)
Definition reflowed (o : Options) (text : str) : TextInput :=
  let model := _split_smart o text 0 in
  {| _current_text := text;
     _rendered_text := text;
     _lines := fst (fst model);
     _lines_flags := snd (fst model);
     _lines_indexes := snd model;
     _cursor := (0, 0);
     _selection_from := None;
     _selection_to := None;
     _selection_finished := true;
     _selection := false;
     scroll_x := 0 |}.

(** The opcodes of two sequences with nothing in common: one [replace]
    covering both. *)
Definition opcodes_disjoint (a b : list str) : list opcode :=
  [(tag_replace, 0, len a, 0, len b)].

(** The opcodes [difflib] gives for the lines "x", "m", "y" against the
    lines "m", "zzzzzz": the first line is deleted, the second kept, the
    third replaced. *)
Definition opcodes_first_dropped (a b : list str) : list opcode :=
  [(tag_delete, 0, 1, 0, 0);
   (tag_equal, 1, 2, 0, 1);
   (tag_replace, 2, 3, 1, 2)].

(** Three lines of one character. *)
Definition three_lines : str := s "x" ++ [nl] ++ s "m" ++ [nl] ++ s "y".

Definition two_lines : str := s "m" ++ [nl] ++ s "zzzzzz".

(** The widget, without wrapping, that held [three_lines] and in which
    [replace_text("m\nzzzzzz", 0, 5, move_cursor_at_end=False)] has put
    [two_lines]. *)
Definition after_replace : TextInput :=
  snd (replace_text no_wrap opcodes_first_dropped two_lines (Some 0)
         (Some 5) false (reflowed no_wrap three_lines)).

(** ** The line model read back as text *)

(** The newline a flag stands for. *)
Definition pending_nl (flag : Z) : str :=
  if has_flag flag FL_IS_LINEBREAK then [nl] else [].

(** The lines joined with a newline in front of every line whose
    [FL_IS_LINEBREAK] bit is set. *)
Fixpoint reconstruct (lines : list str) (flags : list Z) : str :=
  match lines, flags with
  | line :: lines', flag :: flags' =>
      pending_nl flag ++ line ++ reconstruct lines' flags'
  | _, _ => []
  end.

(** The reading of the data model's words, "line ends at an explicit
    newline": the newline follows every flagged line. *)
Fixpoint reconstruct_after (lines : list str) (flags : list Z) : str :=
  match lines, flags with
  | line :: lines', flag :: flags' =>
      line ++ pending_nl flag ++ reconstruct_after lines' flags'
  | _, _ => []
  end.

(** One for a line-break flag, nothing otherwise. *)
Definition linebreak_bit (flag : Z) : Z :=
  if has_flag flag FL_IS_LINEBREAK then 1 else 0.

(** The characters of the rows in front of [row]: their lengths, and one
    more for each of them that carries the line-break flag. *)
Fixpoint preceding_total (lines : list str) (flags : list Z) (row : nat)
  : Z :=
  match row, lines, flags with
  | S row', line :: lines', flag :: flags' =>
      len line + linebreak_bit flag + preceding_total lines' flags' row'
  | _, _, _ => 0
  end.

(** A cursor inside the line model. *)
Definition in_bounds (st : TextInput) (col : Z) (row : nat) : Prop :=
  exists line, nth_error (_lines st) row = Some line /\ 0 <= col <= len line.

(** The summed widths of the characters of a word, each measured alone. *)
Definition chars_width (o : Options) (word : str) : Z :=
  fold_right (fun c acc => Z.of_N (_get_text_width o [c]) + acc) 0 word.

(** The text "delete [end_index, start_index), insert at the boundary"
    describes. *)
Definition replaced_text_by_range (current substring : str)
  (start_index end_index : Z) : str :=
  slice current None (Some end_index)
  ++ substring
  ++ slice current (Some start_index) None.

(** A wide character among narrow ones: [W] is ten units, anything else
    one. *)
Definition wide_W (text : str) : N :=
  fold_right (fun c acc => ((if Ascii.eqb c "W" then 10 else 1) + acc)%N)
    0%N text.

Definition wrap_wide_W (w : Z) : Options :=
  {| multiline := true; do_wrap := true; width := w;
     _get_text_width := wide_W |}.

(** A paragraph that wraps into three lines at width 3, its newline, and a
    second paragraph. *)
Definition two_paragraphs : str := s "aa bb cc" ++ [nl] ++ s "zz".

(** What the pushed lines, the pending flag and the pending line spell. *)
Definition wrapped_text (st : wrap_state) : str :=
  reconstruct (ws_lines st) (ws_lines_flags st)
  ++ pending_nl (ws_flags st) ++ concat (ws_line st).

(** What the loop keeps true: lines and flags are pushed together, the
    running width is not negative, and the first flag pushed is the one the
    loop started under. *)
Record wrap_inv (flags0 : Z) (st : wrap_state) : Prop := {
  inv_length : length (ws_lines st) = length (ws_lines_flags st);
  inv_x : 0 <= ws_x st;
  inv_head : hd (ws_flags st) (ws_lines_flags st) = flags0
}.

(** The three facts the coordinate mapping needs from a reflow. *)
Record line_model (text : str) (lines : list str) (flags : list Z)
  : Prop := {
  lm_length : length lines = length flags;
  lm_text : reconstruct lines flags = text;
  lm_head : has_flag (hd 0 flags) FL_IS_LINEBREAK = false
}.

(** The one place where two cursors share a flat index: column 0 of a row
    that continues the row before it.  A cursor is away from it when it is
    on the first row, or past column 0, or on a row that starts after a
    newline. *)
Definition away_from_wrap_start (st : TextInput) (col : Z) (row : nat)
  : Prop :=
  row = 0%nat \/ 0 < col
  \/ exists flag, nth_error (_lines_flags st) row = Some flag
                  /\ has_flag flag FL_IS_LINEBREAK = true.

(** ["\n".join(lines)]. *)
Fixpoint join_nl (lines : list str) : str :=
  match lines with
  | [] => []
  | line :: rest =>
      match rest with
      | [] => line
      | _ :: _ => line ++ nl :: join_nl rest
      end
  end.

(** ** More methods of the widget *)

(** [select_all]. *)
Definition select_all : M retval :=
  fun st => select_text 0 (len (_current_text st)) st.

(** [_handle_coretextinput_selection_changed]: the selection of the core
    text input is taken over, and an empty one also places the cursor. *)
Definition _handle_coretextinput_selection_changed (start end_ : Z)
  : M unit :=
  select_text start end_ ;;;
  (if start =? end_ then
     cursor <- read (fun st => get_cursor_from_index st start) ;;
     _set_cursor cursor
   else ret tt).

(** [_refresh_text_from_property]. *)
Definition _refresh_text_from_property (o : Options)
  (get_opcodes : list str -> list str -> list opcode) : M unit :=
  fun st => _refresh_text o get_opcodes (_current_text st) property st.

(** [cursor_offset]: the width of the part of the cursor's line that lies
    left of the cursor. *)
Definition cursor_offset (o : Options) (st : TextInput) : result Z :=
  let row := snd (_cursor st) in
  let col := fst (_cursor st) in
  let lines := _lines st in
  if negb (col =? 0) && (row <? len lines) then
    rbind (getitem lines row) (fun line =>
    Ok (Z.of_N (_get_text_width o (slice line None (Some col)))))
  else Ok 0.

(** The values of the [halign] option. *)
Inductive halign_option : Type :=
| halign_left
| halign_center
| halign_right
| halign_auto.

(** The other properties the viewport and the vertical moves read, in whole
    pixels: the widget's height, its top and bottom padding, the line
    height and spacing, the vertical scroll, the alignment, whether a base
    direction is set and names "rtl", whether the widget is read-only, and
    the width of the label of each row ([_get_row_width]). *)
Record Geometry : Type := {
  height : Z;
  padding_top : Z;
  padding_bottom : Z;
  line_height : Z;
  line_spacing : Z;
  scroll_y : Z;
  halign : halign_option;
  base_dir_rtl : bool;
  readonly : bool;
  _get_row_width : Z -> Z
}.

Definition with_scroll_y (y : Z) (g : Geometry) : Geometry :=
  {| height := height g;
     padding_top := padding_top g;
     padding_bottom := padding_bottom g;
     line_height := line_height g;
     line_spacing := line_spacing g;
     scroll_y := y;
     halign := halign g;
     base_dir_rtl := base_dir_rtl g;
     readonly := readonly g;
     _get_row_width := _get_row_width g |}.

(** [halign == "center" or halign == "right" or auto_halign_r]. *)
Definition aligned_right_or_center (g : Geometry) : bool :=
  match halign g with
  | halign_center | halign_right => true
  | halign_auto => base_dir_rtl g
  | halign_left => false
  end.

(** The height of the viewport, less one row. *)
Definition viewport_height (g : Geometry) : Z :=
  height g - padding_top g - padding_bottom g
  - (line_height g + line_spacing g).

(** [_adjust_viewport], the body the trigger runs: both scrolls are moved
    just far enough for the cursor to be inside the viewport. *)
Definition _adjust_viewport (o : Options) (cc cr : Z) (g : Geometry)
  (st : TextInput) : result (Geometry * TextInput) :=
  let viewport_width := width o in
  let sx := scroll_x st in
  rbind (cursor_offset o st) (fun offset =>
  let row_width := _get_row_width g (snd (_cursor st)) in
  let scroll_x1 :=
    if offset - sx >=? viewport_width then offset - viewport_width
    else if offset <? sx + 1 then offset
    else sx in
  let viewport_scroll_x := row_width - viewport_width in
  let scroll_x2 :=
    if negb (multiline o)
       && (offset >=? viewport_scroll_x)
       && (scroll_x1 >=? viewport_scroll_x)
       && aligned_right_or_center g
    then Z.max 0 viewport_scroll_x
    else scroll_x1 in
  let dy := line_height g + line_spacing g in
  let offsety := cr * dy in
  let sy := scroll_y g in
  let scroll_y1 :=
    if offsety >? viewport_height g + sy then offsety - viewport_height g
    else if offsety <? sy then offsety
    else sy in
  Ok (with_scroll_y scroll_y1 g, with_scroll_x scroll_x2 st)).

(** [minimum_height]. *)
Definition minimum_height (g : Geometry) (st : TextInput) : Z :=
  len (_lines st) * (line_height g + line_spacing g)
  + padding_top g + padding_bottom g.

(** [_move_cursor_up]: with control the view scrolls up one line, with alt
    nothing is returned, otherwise the cursor goes one row up and keeps its
    column as far as the line allows. *)
Definition _move_cursor_up (o : Options) (col row : Z) (control alt : bool)
  (g : Geometry) (st : TextInput) : result (option (Z * Z) * Geometry) :=
  if multiline o && control then
    Ok (Some (col, row),
        with_scroll_y (Z.max 0 (scroll_y g - line_height g)) g)
  else if negb (readonly g) && multiline o && alt then Ok (None, g)
  else
    let row := Z.max (row - 1) 0 in
    rbind (getitem (_lines st) row) (fun line =>
    Ok (Some (Z.min (len line) col, row), g)).

(** [_move_cursor_down]. *)
Definition _move_cursor_down (o : Options) (col row : Z) (control alt : bool)
  (g : Geometry) (st : TextInput) : result (option (Z * Z) * Geometry) :=
  if multiline o && control then
    let maxy := minimum_height g st - height g in
    Ok (Some (col, row),
        with_scroll_y
          (Z.max 0 (Z.min maxy (scroll_y g + line_height g))) g)
  else if negb (readonly g) && multiline o && alt then Ok (None, g)
  else
    let row := Z.min (row + 1) (len (_lines st) - 1) in
    rbind (getitem (_lines st) row) (fun line =>
    Ok (Some (Z.min (len line) col, row), g)).

(** [text.find(c)] for a single character: the first place, or -1. *)
Fixpoint find_char (text : str) (c : ascii) : Z :=
  match text with
  | [] => -1
  | d :: rest =>
      if Ascii.eqb d c then 0
      else let i := find_char rest c in if i <? 0 then -1 else i + 1
  end.

(** [text.rfind(c)] for a single character: the last place, or -1; [i] is
    the place of the head of [text] and [found] the last place seen so
    far. *)
Fixpoint rfind_from (text : str) (c : ascii) (i found : Z) : Z :=
  match text with
  | [] => found
  | d :: rest => rfind_from rest c (i + 1) (if Ascii.eqb d c then i else found)
  end.

Definition rfind_char (text : str) (c : ascii) : Z := rfind_from text c 0 (-1).

(** [max(...)] and [min(...)] over a generator; an empty one is a
    [ValueError], written here as an [Exception] with its message. *)
Definition max_of (values : list Z) : result Z :=
  match values with
  | [] => Raise (Exception "max() arg is an empty sequence")
  | v :: rest => Ok (fold_left Z.max rest v)
  end.

Definition min_of (values : list Z) : result Z :=
  match values with
  | [] => Raise (Exception "min() arg is an empty sequence")
  | v :: rest => Ok (fold_left Z.min rest v)
  end.

(** The delimiters [_select_word] is called with by [on_double_tap]. *)
Definition select_word_delimiters : str :=
  [" "; "."; ","; ":"; ";"; "!"; "?"; "'"; "034"; "<"; ">"; "("; ")"; "[";
   "]"; "{"; "}"]%char.

(** [_select_word]: the two indices of the [select_text] call it
    schedules, the word around the cursor on the cursor's line. *)
Definition _select_word (st : TextInput) (delimiters : str)
  : result (Z * Z) :=
  let cindex := cursor_index st None in
  let col := fst (_cursor st) in
  rbind (getitem (_lines st) (snd (_cursor st))) (fun line =>
  let before := slice line None (Some col) in
  let after := slice line (Some col) None in
  rbind (max_of (map (rfind_char before) delimiters)) (fun last_delimiter =>
  let start := Z.max 0 (len before - last_delimiter - 1) in
  rbind (min_of (map (fun c =>
                        if find_char after c >? -1 then find_char after c
                        else len line - col) delimiters)) (fun end_ =>
  Ok (cindex - start, cindex + end_)))).

(** ** Words for the properties *)

(** The newlines of a text. *)
Definition count_nl (text : str) : nat := count_occ ascii_dec text nl.

(** The lines that carry the line-break flag. *)
Definition count_linebreaks (flags : list Z) : nat :=
  length (filter (fun flag => has_flag flag FL_IS_LINEBREAK) flags).

(** The index a token comes with, for tokens that follow each other from
    offset [start] on: the offset just past the token, except that a newline
    token comes with its own offset. *)
Fixpoint token_offsets (start : Z) (tokens : list (str * Z)) : Prop :=
  match tokens with
  | [] => True
  | (word, end_index) :: rest =>
      end_index = (if str_eqb word [nl] then start else start + len word)
      /\ token_offsets (start + len word) rest
  end.

(** What the wrap loop keeps true about the shape of its lists and about
    newlines: a flag and an offset for every line, and no newline inside a
    line or inside a word of the pending line. *)
Record wrap_shape (st : wrap_state) : Prop := {
  shape_flags : length (ws_lines_flags st) = length (ws_lines st);
  shape_indexes : length (ws_lines_text_indexes st) = length (ws_lines st);
  shape_lines : Forall (fun line => ~ In nl line) (ws_lines st);
  shape_line : Forall (fun word => ~ In nl word) (ws_line st)
}.

(** Wrapping is off: the widget is not multiline, or [do_wrap] is unset. *)
Definition wrap_disabled (o : Options) : bool :=
  negb (multiline o) || negb (do_wrap o).

(** * Properties *)

(** Facts that close side conditions on lengths and offsets. *)
Create HintDb textinput.

(** A closed statement about a concrete text: evaluate, then read off. *)
Ltac by_evaluation :=
  vm_compute; repeat split; first [reflexivity | discriminate].

(** ** Python values *)

Lemma str_eqb_eq : forall a b, str_eqb a b = true <-> a = b.
Proof.
  induction a as [|x a IH]; destruct b as [|y b]; simpl; split;
    try congruence; try reflexivity.
  - intros H. apply andb_true_iff in H. destruct H as [H1 H2].
    apply Ascii.eqb_eq in H1. apply IH in H2. congruence.
  - intros H. inversion H; subst. apply andb_true_iff. split.
    + apply Ascii.eqb_refl.
    + apply IH. reflexivity.
Qed.

Lemma len_nonneg : forall (A : Type) (l : list A), 0 <= len l.
Proof. intros. unfold len. lia. Qed.

#[export] Hint Resolve len_nonneg : textinput.

Lemma len_app : forall (A : Type) (a b : list A),
  len (a ++ b) = len a + len b.
Proof. intros. unfold len. rewrite length_app. lia. Qed.

Lemma nonempty_false : forall (A : Type) (l : list A),
  nonempty l = false -> l = [].
Proof. destruct l; simpl; congruence. Qed.

Lemma getitem_nat : forall (A : Type) (l : list A) (r : nat) (a : A),
  nth_error l r = Some a -> getitem l (Z.of_nat r) = Ok a.
Proof.
  intros A l r a H. unfold getitem.
  assert (Hr : (r < length l)%nat).
  { apply nth_error_Some. congruence. }
  unfold len.
  destruct (Z.of_nat r <? - Z.of_nat (length l)) eqn:E1; [lia|].
  destruct (Z.of_nat (length l) <=? Z.of_nat r) eqn:E2; [lia|].
  simpl. destruct (Z.of_nat r <? 0) eqn:E3; [lia|].
  rewrite Nat2Z.id, H. reflexivity.
Qed.

Lemma boundary_range : forall v lo hi,
  lo <= hi -> lo <= boundary v lo hi <= hi.
Proof. intros. unfold boundary. lia. Qed.

#[export] Hint Resolve boundary_range : textinput.

Lemma boundary_inside : forall v lo hi,
  lo <= v <= hi -> boundary v lo hi = v.
Proof. intros. unfold boundary. lia. Qed.

Lemma boundary_idempotent : forall v lo hi,
  lo <= hi -> boundary (boundary v lo hi) lo hi = boundary v lo hi.
Proof. intros. unfold boundary. lia. Qed.

(** ** The tokens make up the text *)

Lemma substring_skipn : forall (text : str) (a b : nat),
  (a <= b)%nat -> substring a b text ++ skipn b text = skipn a text.
Proof.
  intros text a b Hab. unfold substring.
  replace b with ((b - a) + a)%nat at 2 by lia.
  rewrite <- skipn_skipn. apply firstn_skipn.
Qed.

Lemma pending_token_skipn : forall (text : str) (a b : nat),
  (a <= b)%nat ->
  concat (map fst (pending_token text a b)) ++ skipn b text = skipn a text.
Proof.
  intros text a b Hab. unfold pending_token.
  destruct (a <? b)%nat eqn:E; simpl.
  - rewrite app_nil_r. apply substring_skipn. exact Hab.
  - apply Nat.ltb_ge in E. replace b with a by lia. reflexivity.
Qed.

Lemma skipn_cons_next : forall (A : Type) (l : list A) (n : nat) (a : A)
  (rest : list A), skipn n l = a :: rest -> skipn (S n) l = rest.
Proof.
  intros A l n a rest H.
  replace (S n) with (1 + n)%nat by lia.
  rewrite <- skipn_skipn, H. reflexivity.
Qed.

Lemma tokenize_from_concat : forall (text rest : str) (index old_index : nat)
  (prev_char : option ascii),
  skipn index text = rest -> (old_index <= index)%nat ->
  concat (map fst (tokenize_from text rest index old_index prev_char))
  = skipn old_index text.
Proof.
  intros text rest. induction rest as [|char rest IH];
    intros index old_index prev_char Hrest Hold; simpl.
  - apply app_nil_r.
  - pose proof (skipn_cons_next _ _ _ _ _ Hrest) as Hnext.
    destruct (negb (in_delimiters char)).
    + destruct (negb (Ascii.eqb char nl)).
      * destruct ((0 <? index)%nat && prev_in_delimiters prev_char).
        -- rewrite map_app, concat_app, (IH (S index) index); auto.
           apply pending_token_skipn. exact Hold.
        -- apply IH; auto.
      * rewrite map_app, concat_app. simpl.
        rewrite (IH (S index) (S index)); auto.
        rewrite (substring_skipn text index (S index)) by lia.
        apply pending_token_skipn. exact Hold.
    + apply IH; auto.
Qed.

Lemma tokenize_concat : forall text : str,
  concat (map fst (_tokenize text)) = text.
Proof.
  intros text. unfold _tokenize.
  rewrite tokenize_from_concat; auto.
Qed.

(** ** Reading the wrap loop back *)

Lemma reconstruct_snoc : forall (lines : list str) (flags : list Z)
  (line : str) (flag : Z),
  length lines = length flags ->
  reconstruct (lines ++ [line]) (flags ++ [flag])
  = reconstruct lines flags ++ pending_nl flag ++ line.
Proof.
  induction lines as [|l lines IH]; destruct flags as [|f flags];
    simpl; intros line flag H; try discriminate.
  - rewrite app_nil_r. reflexivity.
  - rewrite IH by congruence. rewrite <- !app_assoc. reflexivity.
Qed.

Lemma hd_snoc : forall (flags : list Z) (d flag : Z),
  hd d (flags ++ [flag]) = hd flag flags.
Proof. destruct flags; reflexivity. Qed.

Lemma hd_snoc_any : forall (flags : list Z) (d d' flag : Z),
  hd d (flags ++ [flag]) = hd d' (flags ++ [flag]).
Proof. destruct flags; reflexivity. Qed.

Lemma push_line_text : forall st,
  length (ws_lines st) = length (ws_lines_flags st) ->
  wrapped_text (push_line st) = wrapped_text st.
Proof.
  intros st H. unfold wrapped_text, push_line. simpl.
  rewrite reconstruct_snoc by exact H.
  apply app_nil_r.
Qed.

Lemma push_line_inv : forall flags0 st,
  wrap_inv flags0 st -> wrap_inv flags0 (push_line st).
Proof.
  intros flags0 st [Hl Hx Hh]. split; simpl.
  - rewrite !length_app, Hl. reflexivity.
  - lia.
  - rewrite hd_snoc. exact Hh.
Qed.

Section WrapLoop.

(** The options the loop runs under. *)
Variable o : Options.

Lemma split_scan_width : forall word split_width split_pos,
  split_width <= width o ->
  fst (split_scan o word split_width split_pos) <= width o.
Proof.
  intros word. induction word as [|c word IH]; intros sw sp H; simpl.
  - exact H.
  - destruct (sw + Z.of_N (_get_text_width o [c]) >? width o) eqn:E; simpl.
    + exact H.
    + apply IH. lia.
Qed.

(** What the cutting loop does to the text, when it starts on an empty
    pending line. *)
Lemma split_word_text : forall fuel word w word_end_index st st' rest w',
  split_word o fuel word w word_end_index st = (st', rest, w') ->
  ws_line st = [] ->
  length (ws_lines st) = length (ws_lines_flags st) ->
  ws_line st' = []
  /\ length (ws_lines st') = length (ws_lines_flags st')
  /\ ws_x st' = ws_x st
  /\ hd (ws_flags st') (ws_lines_flags st')
     = hd (ws_flags st) (ws_lines_flags st)
  /\ wrapped_text st' ++ rest = wrapped_text st ++ word.
Proof.
  intros fuel. induction fuel as [|fuel IH];
    intros word w wend st st' rest w' H Hline Hlen; simpl in H.
  - destruct (w >? width o);
      [destruct (split_scan o word 0 0) as [sw sp];
       destruct ((sw =? Z.of_nat sp) && (Z.of_nat sp =? 0))|];
      inversion H; subst; auto.
  - destruct (w >? width o); [|inversion H; subst; auto].
    destruct (split_scan o word 0 0) as [sw sp].
    destruct ((sw =? Z.of_nat sp) && (Z.of_nat sp =? 0));
      [inversion H; subst; auto|].
    apply IH in H; simpl; auto.
    + destruct H as (H1 & H2 & H3 & H4 & H5).
      repeat split; auto.
      * rewrite H4. simpl. apply hd_snoc.
      * rewrite H5. unfold wrapped_text. simpl.
        rewrite reconstruct_snoc by exact Hlen.
        rewrite Hline. simpl. rewrite <- !app_assoc.
        rewrite firstn_skipn. reflexivity.
    + rewrite !length_app, Hlen. reflexivity.
Qed.

Lemma split_word_nonneg : forall fuel word w word_end_index st st' rest w',
  split_word o fuel word w word_end_index st = (st', rest, w') ->
  0 <= width o -> 0 <= w -> 0 <= w'.
Proof.
  intros fuel. induction fuel as [|fuel IH];
    intros word w wend st st' rest w' H Hwidth Hw; simpl in H.
  - destruct (w >? width o);
      [destruct (split_scan o word 0 0) as [sw sp];
       destruct ((sw =? Z.of_nat sp) && (Z.of_nat sp =? 0))|];
      inversion H; subst; auto.
  - destruct (w >? width o) eqn:E; [|inversion H; subst; auto].
    pose proof (split_scan_width word 0 0 Hwidth) as Hsw.
    destruct (split_scan o word 0 0) as [sw sp]. simpl in Hsw.
    destruct ((sw =? Z.of_nat sp) && (Z.of_nat sp =? 0));
      [inversion H; subst; auto|].
    apply IH in H; auto. lia.
Qed.

Lemma pending_nl_0 : pending_nl 0 = [].
Proof. reflexivity. Qed.

Lemma pending_nl_lor : forall flag,
  pending_nl (Z.lor flag FL_IS_LINEBREAK) = [nl].
Proof.
  intros flag. unfold pending_nl, has_flag, FL_IS_LINEBREAK.
  destruct (Z.land (Z.lor flag 1) 1 =? 0) eqn:E; [|reflexivity].
  apply Z.eqb_eq in E. exfalso.
  assert (H : Z.testbit (Z.land (Z.lor flag 1) 1) 0 = true).
  { rewrite Z.land_spec, Z.lor_spec. simpl. rewrite orb_true_r. reflexivity. }
  rewrite E in H. discriminate.
Qed.

Lemma append_word_text : forall st x word word_end_index,
  wrapped_text (append_word st x word word_end_index)
  = wrapped_text st ++ word.
Proof.
  intros. unfold wrapped_text. simpl.
  rewrite concat_app. simpl. rewrite app_nil_r, <- !app_assoc. reflexivity.
Qed.

(** One token more: the text read back grows by exactly that token. *)
Lemma wrap_step_text : forall flags0 st word word_end_index,
  wrap_inv flags0 st ->
  wrap_inv flags0 (wrap_step o st (word, word_end_index))
  /\ wrapped_text (wrap_step o st (word, word_end_index))
     = wrapped_text st ++ word.
Proof.
  intros flags0 st word wend Hinv. unfold wrap_step.
  set (w := Z.of_N (_get_text_width o word)).
  assert (Hw : 0 <= w) by apply N2Z.is_nonneg.
  destruct (str_eqb word [nl]) eqn:Enl.
  - (* a newline: the line is pushed and the break is pending *)
    apply str_eqb_eq in Enl. subst word.
    rewrite orb_true_r.
    pose proof (push_line_inv _ _ Hinv) as [Hl Hx Hh].
    pose proof (push_line_text st (inv_length _ _ Hinv)) as Ht.
    split.
    + split; simpl in *; auto.
      rewrite hd_snoc in Hh. rewrite hd_snoc_any with (d' := ws_flags st).
      rewrite hd_snoc. exact Hh.
    + unfold wrapped_text in *. simpl in *.
      rewrite app_nil_r in Ht. rewrite Ht. reflexivity.
  - rewrite orb_false_r.
    destruct ((1 <=? width o) && (w >? width o)) eqn:Ecut.
    + (* a word wider than the line: it is cut *)
      apply andb_true_iff in Ecut. destruct Ecut as [Ewidth Ewide].
      apply Z.leb_le in Ewidth.
      assert (Hpre : exists st1, (if (ws_x st + w >? width o)
                                     && nonempty (ws_line st)
                                  then push_line st else st) = st1
                /\ wrap_inv flags0 st1 /\ ws_line st1 = []
                /\ wrapped_text st1 = wrapped_text st).
      { destruct (nonempty (ws_line st)) eqn:Eline.
        - replace (ws_x st + w >? width o) with true.
          + simpl. exists (push_line st).
            split; [reflexivity|]. split; [|split].
            * apply push_line_inv; exact Hinv.
            * reflexivity.
            * apply push_line_text. apply Hinv.
          + symmetry. apply Z.gtb_lt. pose proof (inv_x _ _ Hinv).
            apply Z.gtb_lt in Ewide. lia.
        - rewrite andb_false_r. exists st.
          split; [reflexivity|]. split; [exact Hinv|]. split; [|reflexivity].
          apply nonempty_false. exact Eline. }
      destruct Hpre as (st1 & -> & [Hl1 Hx1 Hh1] & Hline1 & Ht1).
      destruct (split_word o (S (length word)) word w wend st1)
        as [[st2 word'] w'] eqn:Esplit.
      pose proof (split_word_nonneg _ _ _ _ _ _ _ _ Esplit
                    ltac:(lia) Hw) as Hw'.
      apply split_word_text in Esplit; auto.
      destruct Esplit as (H1 & H2 & H3 & H4 & H5).
      split.
      * split; simpl; auto. rewrite H4. exact Hh1.
      * rewrite append_word_text, H5, Ht1. reflexivity.
    + (* a word that goes on the line, after a push if it overflows *)
      assert (Hpre : exists st1, (if (ws_x st + w >? width o)
                                     && nonempty (ws_line st)
                                  then push_line st else st) = st1
                /\ wrap_inv flags0 st1
                /\ wrapped_text st1 = wrapped_text st).
      { destruct ((ws_x st + w >? width o) && nonempty (ws_line st)).
        - exists (push_line st). split; [reflexivity|]. split.
          + apply push_line_inv; exact Hinv.
          + apply push_line_text. apply Hinv.
        - exists st. split; [reflexivity|]. split; [exact Hinv|reflexivity]. }
      destruct Hpre as (st1 & -> & [Hl1 Hx1 Hh1] & Ht1).
      split.
      * split; simpl; auto. lia.
      * rewrite append_word_text, Ht1. reflexivity.
Qed.

Lemma wrap_fold_text : forall flags0 tokens st,
  wrap_inv flags0 st ->
  wrap_inv flags0 (fold_left (wrap_step o) tokens st)
  /\ wrapped_text (fold_left (wrap_step o) tokens st)
     = wrapped_text st ++ concat (map fst tokens).
Proof.
  intros flags0 tokens. induction tokens as [|[word wend] tokens IH];
    intros st Hinv; cbn [fold_left map concat fst].
  - rewrite app_nil_r. auto.
  - destruct (wrap_step_text flags0 st word wend Hinv) as [Hinv' Ht].
    destruct (IH _ Hinv') as [Hinv'' Ht'].
    split; auto. rewrite Ht', Ht, <- app_assoc. reflexivity.
Qed.

End WrapLoop.

Lemma wrap_init_inv : forall flags, wrap_inv flags (wrap_init flags).
Proof. intros. split; simpl; auto. lia. Qed.


Lemma wrap_finish_model : forall flags0 st lines flags indexes,
  wrap_inv flags0 st ->
  wrap_finish st = (lines, flags, indexes) ->
  length lines = length flags
  /\ reconstruct lines flags = wrapped_text st
  /\ hd flags0 flags = flags0.
Proof.
  intros flags0 st lines flags indexes Hinv H. unfold wrap_finish in H.
  destruct (nonempty (ws_line st) || has_flag (ws_flags st) FL_IS_LINEBREAK)
    eqn:E; inversion H; subst; clear H.
  - pose proof (push_line_inv _ _ Hinv) as [Hl Hx Hh].
    pose proof (push_line_text st (inv_length _ _ Hinv)) as Ht.
    split; [exact Hl|]. split.
    + rewrite <- Ht. unfold wrapped_text. simpl. symmetry. apply app_nil_r.
    + simpl in *. rewrite hd_snoc_any with (d' := 0). exact Hh.
  - apply orb_false_iff in E. destruct E as [E1 E2].
    apply nonempty_false in E1.
    destruct Hinv as [Hl Hx Hh].
    split; [exact Hl|]. split.
    + unfold wrapped_text, pending_nl. rewrite E1, E2. simpl.
      rewrite app_nil_r. reflexivity.
    + destruct (ws_lines_flags st); simpl in *; congruence.
Qed.

Lemma pending_nl_linebreak : pending_nl FL_IS_LINEBREAK = [nl].
Proof. reflexivity. Qed.

Lemma split_nl_joined : forall text : str,
  exists line lines,
    split_nl text = line :: lines
    /\ line ++ reconstruct lines (repeat FL_IS_LINEBREAK (length lines))
       = text.
Proof.
  induction text as [|c text (line & lines & Hs & Hr)]; simpl.
  - exists [], []. auto.
  - rewrite Hs. destruct (Ascii.eqb c nl) eqn:E.
    + apply Ascii.eqb_eq in E. subst c.
      exists [], (line :: lines). split; [reflexivity|].
      simpl. rewrite Hr. reflexivity.
    + exists (c :: line), lines. split; [reflexivity|].
      simpl. rewrite Hr. reflexivity.
Qed.

(** Every reflow from scratch is a line model of its text. *)
Lemma split_smart_model : forall o text lines flags indexes,
  _split_smart o text 0 = (lines, flags, indexes) ->
  line_model text lines flags.
Proof.
  intros o text lines flags indexes H. unfold _split_smart in H.
  destruct (negb (multiline o) || negb (do_wrap o)).
  - inversion H; subst; clear H.
    destruct (split_nl_joined text) as (line & rest & Hs & Hr).
    rewrite Hs. simpl. rewrite Nat.sub_0_r. split; simpl.
    + rewrite repeat_length. reflexivity.
    + exact Hr.
    + reflexivity.
  - destruct (wrap_fold_text o 0 (_tokenize text) (wrap_init 0)
                (wrap_init_inv 0)) as [Hinv Ht].
    destruct (wrap_finish_model _ _ _ _ _ Hinv H) as (Hl & Hr & Hh).
    split.
    + exact Hl.
    + rewrite Hr, Ht, tokenize_concat. reflexivity.
    + rewrite Hh. reflexivity.
Qed.

Lemma reflowed_model : forall o text,
  line_model text (_lines (reflowed o text)) (_lines_flags (reflowed o text)).
Proof.
  intros o text. unfold reflowed. simpl.
  destruct (_split_smart o text 0) as [[lines flags] indexes] eqn:E.
  simpl. eapply split_smart_model; eauto.
Qed.

(** C3, as the data model words it (a line break flag marks a line that
    ends at a newline, so the newline goes after the flagged line), fails:
    the lines of "ab\ncd" read back as "abcd\n". *)
Lemma reconstruct_after_counterexample :
  let text := s "ab" ++ [nl] ++ s "cd" in
  let st := reflowed no_wrap text in
  _lines st = [s "ab"; s "cd"]
  /\ _lines_flags st = [0; FL_IS_LINEBREAK]
  /\ reconstruct_after (_lines st) (_lines_flags st) = s "abcd" ++ [nl]
  /\ reconstruct_after (_lines st) (_lines_flags st) <> text.
Proof. by_evaluation. Qed.

(** C3 (amended): for every text, with wrapping on or off, the lines of a
    reflow joined with a newline in front of each line whose line-break flag
    is set, and nothing between the other lines, are the text itself. *)
Theorem reflow_reconstructs_text : forall o text,
  reconstruct (_lines (reflowed o text)) (_lines_flags (reflowed o text))
  = text.
Proof.
  intros o text. apply (reflowed_model o text).
Qed.

(** ** Rows and flat offsets *)

Lemma linebreak_bit_range : forall flag, 0 <= linebreak_bit flag <= 1.
Proof. intros. unfold linebreak_bit. destruct (has_flag _ _); lia. Qed.

Lemma linebreak_bit_len : forall flag,
  linebreak_bit flag = len (pending_nl flag).
Proof.
  intros. unfold linebreak_bit, pending_nl.
  destruct (has_flag _ _); reflexivity.
Qed.

Lemma add_linebreak : forall flag n,
  (if has_flag flag FL_IS_LINEBREAK then n + 1 else n)
  = n + linebreak_bit flag.
Proof.
  intros. unfold linebreak_bit. destruct (has_flag _ _); lia.
Qed.

Lemma preceding_total_nonneg : forall lines flags row,
  0 <= preceding_total lines flags row.
Proof.
  induction lines as [|l lines IH]; intros flags row;
    destruct row, flags; simpl; try lia.
  pose proof (IH flags row). pose proof (len_nonneg _ l).
  pose proof (linebreak_bit_range z). lia.
Qed.

Lemma preceding_total_S : forall lines flags row line flag,
  nth_error lines row = Some line ->
  nth_error flags row = Some flag ->
  preceding_total lines flags (S row)
  = preceding_total lines flags row + len line + linebreak_bit flag.
Proof.
  induction lines as [|l lines IH]; intros flags row line flag Hl Hf.
  - destruct row; discriminate.
  - destruct flags as [|f flags]; [destruct row; discriminate|].
    destruct row as [|row].
    + simpl in Hl, Hf. inversion Hl; inversion Hf; subst.
      simpl. destruct lines, flags; simpl; lia.
    + simpl in Hl, Hf.
      change (preceding_total (l :: lines) (f :: flags) (S (S row)))
        with (len l + linebreak_bit f
              + preceding_total lines flags (S row)).
      rewrite (IH flags row line flag Hl Hf). simpl. lia.
Qed.

Lemma preceding_total_mono : forall lines flags r r',
  (r <= r')%nat ->
  preceding_total lines flags r <= preceding_total lines flags r'.
Proof.
  induction lines as [|l lines IH]; intros flags r r' H.
  - destruct r, r'; simpl; lia.
  - destruct flags as [|f flags]; [destruct r, r'; simpl; lia|].
    destruct r as [|r]; destruct r' as [|r']; simpl; try lia.
    + pose proof (preceding_total_nonneg lines flags r').
      pose proof (len_nonneg _ l). pose proof (linebreak_bit_range f). lia.
    + pose proof (IH flags r r'). lia.
Qed.

Lemma preceding_total_all : forall lines flags r,
  (length lines <= r)%nat ->
  preceding_total lines flags r
  = preceding_total lines flags (length lines).
Proof.
  induction lines as [|l lines IH]; intros flags r H.
  - destruct r, flags; reflexivity.
  - destruct r as [|r]; [simpl in H; lia|].
    destruct flags as [|f flags]; [reflexivity|].
    simpl. rewrite (IH flags r) by (simpl in H; lia). reflexivity.
Qed.

Lemma len_reconstruct : forall lines flags,
  length lines = length flags ->
  len (reconstruct lines flags)
  = preceding_total lines flags (length lines).
Proof.
  induction lines as [|l lines IH]; intros flags H;
    destruct flags as [|f flags]; try discriminate; simpl.
  - reflexivity.
  - rewrite !len_app, IH by (simpl in H; congruence).
    rewrite linebreak_bit_len. lia.
Qed.

Lemma cursor_index_loop_total : forall n lines flags index,
  cursor_index_loop n lines flags index
  = index + preceding_total lines flags n.
Proof.
  induction n as [|n IH]; intros lines flags index.
  - destruct lines, flags; simpl; lia.
  - destruct lines as [|l lines]; [simpl; lia|].
    destruct flags as [|f flags]; [simpl; lia|].
    simpl. rewrite IH, add_linebreak. lia.
Qed.

Lemma nth_error_nonempty : forall (A : Type) (l : list A) (n : nat) (a : A),
  nth_error l n = Some a -> nonempty l = true.
Proof. destruct l, n; simpl; congruence. Qed.

Lemma nth_error_len : forall (A : Type) (l : list A) (n : nat) (a : A),
  nth_error l n = Some a -> Z.of_nat n < len l.
Proof.
  intros A l n a H. unfold len.
  assert ((n < length l)%nat) by (apply nth_error_Some; congruence). lia.
Qed.

(** What [cursor_index] computes for a row of the model. *)
Lemma cursor_index_row : forall st col row line flag,
  nth_error (_lines st) row = Some line ->
  nth_error (_lines_flags st) row = Some flag ->
  cursor_index st (Some (col, Z.of_nat row))
  = col + preceding_total (_lines st) (_lines_flags st) row
    + linebreak_bit flag.
Proof.
  intros st col row line flag Hl Hf. unfold cursor_index.
  rewrite (nth_error_nonempty _ _ _ _ Hl). simpl.
  pose proof (nth_error_len _ _ _ _ Hl) as Hrow.
  rewrite Z.min_l by lia. rewrite Nat2Z.id.
  rewrite (getitem_nat _ _ _ _ Hf).
  rewrite cursor_index_loop_total, add_linebreak. reflexivity.
Qed.

Lemma skipn_head : forall (A : Type) (r : nat) (l : list A) (a : A)
  (rest : list A), skipn r l = a :: rest -> nth_error l r = Some a.
Proof.
  induction r as [|r IH]; intros l a rest H.
  - simpl in H. subst l. reflexivity.
  - destruct l as [|b l]; [discriminate|]. simpl in *. eapply IH; eauto.
Qed.

Lemma skipn_nil_length : forall (A : Type) (r : nat) (l : list A),
  skipn r l = [] -> (length l <= r)%nat.
Proof.
  intros A r l H. pose proof (length_skipn r l) as Hs.
  rewrite H in Hs. simpl in Hs. lia.
Qed.

Lemma nth_error_same_length : forall (A B : Type) (la : list A)
  (lb : list B) (n : nat) (a : A),
  length la = length lb -> nth_error la n = Some a ->
  exists b, nth_error lb n = Some b.
Proof.
  intros A B la lb n a Hlen H.
  destruct (nth_error lb n) as [b|] eqn:E; [eauto|].
  apply nth_error_None in E.
  assert ((n < length la)%nat) by (apply nth_error_Some; congruence). lia.
Qed.

Section Rows.

(** Lines and their flags, as many of the ones as of the others. *)
Variables (lines : list str) (flags : list Z).
Hypothesis same_length : length lines = length flags.

(** The scan of [get_cursor_from_index], entered at row [r] with the
    characters of the rows before it consumed, finds a row for every index
    that lies beyond them and within the text. *)
Lemma cursor_from_index_loop_finds : forall index rest r,
  skipn r lines = rest ->
  preceding_total lines flags r < index ->
  index <= preceding_total lines flags (length lines) ->
  exists row col line flag,
    cursor_from_index_loop flags index rest (Z.of_nat r)
      (preceding_total lines flags r) = Ok (col, Z.of_nat row)
    /\ nth_error lines row = Some line
    /\ nth_error flags row = Some flag
    /\ index = col + preceding_total lines flags row + linebreak_bit flag
    /\ 0 <= col <= len line.
Proof.
  intros index rest. induction rest as [|l rest IH];
    intros r Hrest Hlo Hhi.
  - apply skipn_nil_length in Hrest.
    rewrite (preceding_total_all _ _ _ Hrest) in Hlo. lia.
  - pose proof (skipn_head _ _ _ _ _ Hrest) as Hl.
    destruct (nth_error_same_length _ _ _ _ _ _ same_length Hl) as [f Hf].
    pose proof (preceding_total_S _ _ _ _ _ Hl Hf) as HS.
    simpl. rewrite (getitem_nat _ _ _ _ Hf). rewrite !add_linebreak.
    destruct (preceding_total lines flags r + len l + linebreak_bit f
              >=? index) eqn:E.
    + exists r, (index - (preceding_total lines flags r + linebreak_bit f)),
        l, f.
      pose proof (linebreak_bit_range f).
      repeat split; auto; lia.
    + rewrite <- HS.
      replace (Z.of_nat r + 1) with (Z.of_nat (S r)) by lia.
      apply IH; auto.
      * eapply skipn_cons_next; eauto.
      * lia.
Qed.

(** The same scan returns the cursor it is asked about, when no earlier row
    ends at or after the cursor's index. *)
Lemma cursor_from_index_loop_returns : forall index rest r row col line flag,
  skipn r lines = rest ->
  (r <= row)%nat ->
  nth_error lines row = Some line ->
  nth_error flags row = Some flag ->
  index = col + preceding_total lines flags row + linebreak_bit flag ->
  0 <= col <= len line ->
  ((r < row)%nat -> preceding_total lines flags row < index) ->
  cursor_from_index_loop flags index rest (Z.of_nat r)
    (preceding_total lines flags r) = Ok (col, Z.of_nat row).
Proof.
  intros index rest. induction rest as [|l rest IH];
    intros r row col line flag Hrest Hr Hline Hflag Hindex Hcol Hprev.
  - apply skipn_nil_length in Hrest.
    assert ((row < length lines)%nat) by (apply nth_error_Some; congruence).
    lia.
  - pose proof (skipn_head _ _ _ _ _ Hrest) as Hl.
    destruct (nth_error_same_length _ _ _ _ _ _ same_length Hl) as [f Hf].
    pose proof (preceding_total_S _ _ _ _ _ Hl Hf) as HS.
    simpl. rewrite (getitem_nat _ _ _ _ Hf). rewrite !add_linebreak.
    destruct (Nat.eq_dec r row) as [->|Hne].
    + rewrite Hline in Hl. rewrite Hflag in Hf.
      inversion Hl; inversion Hf; subst l f.
      replace (preceding_total lines flags row + len line
               + linebreak_bit flag >=? index) with true
        by (symmetry; apply Z.geb_le; lia).
      f_equal. f_equal. lia.
    + pose proof (preceding_total_mono lines flags (S r) row ltac:(lia)).
      replace (preceding_total lines flags r + len l + linebreak_bit f
               >=? index) with false
        by (symmetry; rewrite Z.geb_leb; apply Z.leb_gt; lia).
      rewrite <- HS.
      replace (Z.of_nat r + 1) with (Z.of_nat (S r)) by lia.
      eapply IH; eauto.
      * eapply skipn_cons_next; eauto.
      * lia.
      * intros _. apply Hprev. lia.
Qed.

End Rows.

Lemma preceding_total_0 : forall lines flags,
  preceding_total lines flags 0 = 0.
Proof. destruct lines, flags; reflexivity. Qed.

Section LineModel.

(** A widget whose lines and flags are a line model of its text. *)
Variable st : TextInput.
Hypothesis model :
  line_model (_current_text st) (_lines st) (_lines_flags st).

(** From a flat index to a cursor and back. *)
Lemma index_round_trip : forall index,
  0 <= index <= len (_current_text st) ->
  exists cursor,
    get_cursor_from_index st index = Ok cursor
    /\ cursor_index st (Some cursor) = index.
Proof.
  intros index Hindex. destruct model as [Hlen Htext Hhead].
  unfold get_cursor_from_index. rewrite boundary_inside by exact Hindex.
  destruct (index <=? 0) eqn:E0.
  - apply Z.leb_le in E0. assert (index = 0) by lia. subst index.
    exists (0, 0). split; [reflexivity|].
    destruct (_lines st) as [|l ls] eqn:El.
    + unfold cursor_index. rewrite El. reflexivity.
    + destruct (_lines_flags st) as [|f fs] eqn:Ef; [discriminate|].
      assert (H1 : nth_error (_lines st) 0 = Some l) by (rewrite El; auto).
      assert (H2 : nth_error (_lines_flags st) 0 = Some f)
        by (rewrite Ef; auto).
      pose proof (cursor_index_row st 0 0%nat l f H1 H2) as H.
      change (Z.of_nat 0) with 0 in H. rewrite H, preceding_total_0.
      simpl in Hhead. unfold linebreak_bit. rewrite Hhead. reflexivity.
  - apply Z.leb_gt in E0.
    pose proof (len_reconstruct _ _ Hlen) as Htotal.
    rewrite Htext in Htotal.
    destruct (nonempty (_lines st)) eqn:En.
    + destruct (cursor_from_index_loop_finds (_lines st) (_lines_flags st)
                  Hlen index (_lines st) 0 eq_refl)
        as (row & col & line & flag & Hloop & Hl & Hf & Hi & Hcol).
      * rewrite preceding_total_0. exact E0.
      * lia.
      * rewrite preceding_total_0 in Hloop.
        change (Z.of_nat 0) with 0 in Hloop.
        exists (col, Z.of_nat row). split; [exact Hloop|].
        rewrite (cursor_index_row st col row line flag Hl Hf). lia.
    + apply nonempty_false in En. rewrite En in Htotal.
      simpl in Htotal. lia.
Qed.

(** From a cursor to its flat index and back. *)
Lemma cursor_round_trip : forall col row,
  in_bounds st col row ->
  away_from_wrap_start st col row ->
  get_cursor_from_index st (cursor_index st (Some (col, Z.of_nat row)))
  = Ok (col, Z.of_nat row).
Proof.
  intros col row (line & Hl & Hcol) Haway.
  destruct model as [Hlen Htext Hhead].
  destruct (nth_error_same_length _ _ _ _ _ _ Hlen Hl) as [flag Hf].
  rewrite (cursor_index_row st col row line flag Hl Hf).
  set (index := col + preceding_total (_lines st) (_lines_flags st) row
                + linebreak_bit flag).
  pose proof (preceding_total_nonneg (_lines st) (_lines_flags st) row)
    as Hp.
  pose proof (linebreak_bit_range flag) as Hb.
  pose proof (preceding_total_S _ _ _ _ _ Hl Hf) as HS.
  assert (Hrow : (row < length (_lines st))%nat)
    by (apply nth_error_Some; congruence).
  pose proof (preceding_total_mono (_lines st) (_lines_flags st) (S row)
                (length (_lines st)) ltac:(lia)) as Hmono.
  pose proof (len_reconstruct _ _ Hlen) as Htotal.
  rewrite Htext in Htotal.
  assert (Hgap : (0 < row)%nat ->
            preceding_total (_lines st) (_lines_flags st) row < index).
  { intros Hpos. destruct Haway as [H0 | [Hc | (f & Hf' & Hb')]].
    - lia.
    - unfold index. lia.
    - rewrite Hf in Hf'. inversion Hf'; subst f.
      unfold index, linebreak_bit. rewrite Hb'. lia. }
  unfold get_cursor_from_index.
  rewrite boundary_inside by (unfold index; lia).
  destruct (index <=? 0) eqn:E0.
  - apply Z.leb_le in E0.
    destruct row as [|row]; [|specialize (Hgap ltac:(lia)); lia].
    f_equal. f_equal. unfold index in E0. lia.
  - rewrite (nth_error_nonempty _ _ _ _ Hl). simpl.
    pose proof (cursor_from_index_loop_returns (_lines st) (_lines_flags st)
                  Hlen index (_lines st) 0 row col line flag eq_refl
                  ltac:(lia) Hl Hf eq_refl Hcol Hgap) as Hloop.
    rewrite preceding_total_0 in Hloop. exact Hloop.
Qed.

End LineModel.

(** C1, as stated, fails: in the model of "aa bb cc" wrapped at three
    characters the cursor (0, 1), the start of the second row, is in bounds
    and far from the end of the buffer (its index is 3 of 8), yet it comes
    back as (3, 0), the end of the first row. *)
Lemma cursor_round_trip_counterexample :
  let st := reflowed (wrap_at 3) (s "aa bb cc") in
  _lines st = [s "aa "; s "bb "; s "cc"]
  /\ _lines_flags st = [0; 0; 0]
  /\ cursor_index st (Some (0, 1)) = 3
  /\ get_cursor_from_index st (cursor_index st (Some (0, 1))) = Ok (3, 0)
  /\ get_cursor_from_index st (cursor_index st (Some (0, 1))) <> Ok (0, 1).
Proof. by_evaluation. Qed.

(** C1 (amended): in the line model of any reflow, every flat index in
    [0, len(text)] goes to a cursor whose index it is, and every in-bounds
    cursor that is not at column 0 of a row continuing the previous one (a
    row other than the first that carries no line-break flag) comes back
    from its index unchanged. *)
Theorem coordinate_round_trip : forall o text,
  (forall index, 0 <= index <= len text ->
     exists cursor,
       get_cursor_from_index (reflowed o text) index = Ok cursor
       /\ cursor_index (reflowed o text) (Some cursor) = index)
  /\ (forall col row,
        in_bounds (reflowed o text) col row ->
        away_from_wrap_start (reflowed o text) col row ->
        get_cursor_from_index (reflowed o text)
          (cursor_index (reflowed o text) (Some (col, Z.of_nat row)))
        = Ok (col, Z.of_nat row)).
Proof.
  intros o text.
  pose proof (reflowed_model o text) as Hmodel.
  split.
  - intros index Hindex. apply index_round_trip; assumption.
  - intros col row Hin Haway. apply cursor_round_trip; assumption.
Qed.

Lemma coordinate_round_trip_witness :
  (exists cursor,
     get_cursor_from_index (reflowed (wrap_at 3) two_paragraphs) 4
     = Ok cursor
     /\ cursor_index (reflowed (wrap_at 3) two_paragraphs) (Some cursor)
        = 4)
  /\ get_cursor_from_index (reflowed (wrap_at 3) two_paragraphs)
       (cursor_index (reflowed (wrap_at 3) two_paragraphs)
          (Some (1, Z.of_nat 1)))
     = Ok (1, Z.of_nat 1).
Proof.
  destruct (coordinate_round_trip (wrap_at 3) two_paragraphs)
    as [Hindex Hcursor].
  split.
  - apply Hindex. vm_compute. split; discriminate.
  - apply Hcursor.
    + exists (s "bb "). vm_compute. repeat split; discriminate.
    + right. left. reflexivity.
Defined.

(** C2, as stated, fails: in the model of "ab\ncd" the second row carries
    the line-break flag, and the index of its column 0 is 3, one more than
    the characters of the row before it. *)
Lemma cursor_index_own_row_counterexample :
  let st := reflowed no_wrap (s "ab" ++ [nl] ++ s "cd") in
  nth_error (_lines_flags st) 1 = Some FL_IS_LINEBREAK
  /\ preceding_total (_lines st) (_lines_flags st) 1 = 2
  /\ cursor_index st (Some (0, 1)) = 3
  /\ cursor_index st (Some (0, 1))
     <> 0 + preceding_total (_lines st) (_lines_flags st) 1.
Proof. by_evaluation. Qed.

(** C2 (amended): for a cursor on a row of the model, [cursor_index] is the
    column, plus the lengths of all preceding rows, plus one for every
    preceding row that carries the line-break flag, plus one more when the
    cursor's own row carries it. *)
Theorem cursor_index_counts_own_linebreak : forall st col row line flag,
  nth_error (_lines st) row = Some line ->
  nth_error (_lines_flags st) row = Some flag ->
  cursor_index st (Some (col, Z.of_nat row))
  = col + preceding_total (_lines st) (_lines_flags st) row
    + (if has_flag flag FL_IS_LINEBREAK then 1 else 0).
Proof.
  intros st col row line flag Hl Hf.
  apply (cursor_index_row st col row line flag Hl Hf).
Qed.

Lemma cursor_index_counts_own_linebreak_witness :
  cursor_index (reflowed (wrap_at 3) two_paragraphs) (Some (1, Z.of_nat 3))
  = 1 + preceding_total (_lines (reflowed (wrap_at 3) two_paragraphs))
          (_lines_flags (reflowed (wrap_at 3) two_paragraphs)) 3
    + (if has_flag FL_IS_LINEBREAK FL_IS_LINEBREAK then 1 else 0).
Proof.
  apply (cursor_index_counts_own_linebreak
           (reflowed (wrap_at 3) two_paragraphs) 1 3 (s "zz")
           FL_IS_LINEBREAK); reflexivity.
Defined.

(** ** Reflow without wrapping *)

Lemma split_nl_nonempty : forall text, split_nl text <> [].
Proof.
  destruct text as [|c text]; simpl; [discriminate|].
  destruct (Ascii.eqb c nl); [discriminate|].
  destruct (split_nl text); discriminate.
Qed.

Lemma join_nl_cons_char : forall c line rest,
  join_nl ((c :: line) :: rest) = c :: join_nl (line :: rest).
Proof. intros. destruct rest; reflexivity. Qed.

Lemma join_split_nl : forall text, join_nl (split_nl text) = text.
Proof.
  induction text as [|c text IH]; [reflexivity|].
  pose proof (split_nl_nonempty text) as Hne. simpl.
  destruct (split_nl text) as [|line rest]; [congruence|].
  destruct (Ascii.eqb c nl) eqn:E.
  - apply Ascii.eqb_eq in E. subst c.
    change (join_nl ([] :: line :: rest))
      with ([] ++ nl :: join_nl (line :: rest)).
    rewrite IH. reflexivity.
  - rewrite join_nl_cons_char. f_equal. exact IH.
Qed.

Lemma split_nl_no_newline : forall text,
  Forall (fun line => ~ In nl line) (split_nl text).
Proof.
  induction text as [|c text IH]; simpl.
  - constructor; [intros []|constructor].
  - destruct (Ascii.eqb c nl) eqn:E.
    + constructor; [intros []|exact IH].
    + apply Ascii.eqb_neq in E.
      destruct (split_nl text) as [|line rest].
      * constructor; [|constructor]. intros [H|[]]. congruence.
      * inversion IH; subst. constructor; [|assumption].
        intros [H|H]; [congruence|contradiction].
Qed.

(** C4, as stated, fails on its own example: for "ab\ncd" the flags are
    [0, LINEBREAK], the flag sitting on the line after the newline. *)
Lemma no_wrap_flags_counterexample :
  _split_smart no_wrap (s "ab" ++ [nl] ++ s "cd") 0
  = ([s "ab"; s "cd"], [0; FL_IS_LINEBREAK], [])
  /\ snd (fst (_split_smart no_wrap (s "ab" ++ [nl] ++ s "cd") 0))
     <> [FL_IS_LINEBREAK; 0].
Proof. by_evaluation. Qed.

(** C4 (amended): with wrapping disabled (not multiline, or [do_wrap] off)
    the lines are the text split at its newlines and nowhere else, the first
    line has flags 0 and every later line has exactly the line-break flag;
    for "ab\ncd" that is lines ["ab", "cd"] with flags [0, LINEBREAK]. *)
Theorem no_wrap_splits_on_newlines :
  (forall o text flags0 lines flags indexes,
     negb (multiline o) || negb (do_wrap o) = true ->
     _split_smart o text flags0 = (lines, flags, indexes) ->
     join_nl lines = text
     /\ Forall (fun line => ~ In nl line) lines
     /\ length flags = length lines
     /\ nth_error flags 0 = Some 0
     /\ (forall row, (0 < row < length lines)%nat ->
           nth_error flags row = Some FL_IS_LINEBREAK))
  /\ _split_smart no_wrap (s "ab" ++ [nl] ++ s "cd") 0
     = ([s "ab"; s "cd"], [0; FL_IS_LINEBREAK], []).
Proof.
  split; [|reflexivity].
  intros o text flags0 lines flags indexes Hoff H.
  unfold _split_smart in H. rewrite Hoff in H.
  inversion H; subst; clear H.
  pose proof (split_nl_nonempty text) as Hne.
  split; [apply join_split_nl|].
  split; [apply split_nl_no_newline|].
  destruct (split_nl text) as [|line rest]; [congruence|].
  simpl. rewrite Nat.sub_0_r, repeat_length.
  split; [reflexivity|]. split; [reflexivity|].
  intros [|row] Hrow; [lia|]. simpl.
  apply nth_error_repeat. lia.
Qed.

Lemma no_wrap_splits_on_newlines_witness :
  negb (multiline no_wrap) || negb (do_wrap no_wrap) = true
  /\ join_nl [s "ab"; s "cd"] = s "ab" ++ [nl] ++ s "cd"
  /\ nth_error [0; FL_IS_LINEBREAK] 1 = Some FL_IS_LINEBREAK.
Proof.
  split; [reflexivity|].
  destruct (proj1 no_wrap_splits_on_newlines no_wrap
              (s "ab" ++ [nl] ++ s "cd") 0
              [s "ab"; s "cd"] [0; FL_IS_LINEBREAK] []
              eq_refl eq_refl) as (Hjoin & _ & _ & _ & Hrest).
  split; [exact Hjoin|].
  apply Hrest. simpl. lia.
Defined.

(** ** Clamping *)

Lemma cursor_from_index_loop_total : forall lines flags index rest r i,
  (length lines <= length flags)%nat ->
  skipn r lines = rest ->
  exists cursor,
    cursor_from_index_loop flags index rest (Z.of_nat r) i = Ok cursor.
Proof.
  intros lines flags index rest. induction rest as [|l rest IH];
    intros r i Hlen Hrest; simpl.
  - eauto.
  - pose proof (skipn_head _ _ _ _ _ Hrest) as Hl.
    assert (Hr : (r < length flags)%nat).
    { assert ((r < length lines)%nat) by (apply nth_error_Some; congruence).
      lia. }
    destruct (nth_error flags r) as [f|] eqn:Hf;
      [|apply nth_error_None in Hf; lia].
    rewrite (getitem_nat _ _ _ _ Hf).
    destruct (_ >=? index); [eauto|].
    replace (Z.of_nat r + 1) with (Z.of_nat (S r)) by lia.
    apply IH; auto. eapply skipn_cons_next; eauto.
Qed.

Lemma get_cursor_from_index_total : forall st index,
  (length (_lines st) <= length (_lines_flags st))%nat ->
  exists cursor, get_cursor_from_index st index = Ok cursor.
Proof.
  intros st index Hlen. unfold get_cursor_from_index.
  destruct (_ <=? 0); [eauto|].
  destruct (negb _); [eauto|].
  apply (cursor_from_index_loop_total (_lines st) (_lines_flags st) _
           (_lines st) 0 0 Hlen eq_refl).
Qed.

Lemma getitem_in_range : forall (A : Type) (l : list A) (i : Z),
  0 <= i < len l ->
  exists a, getitem l i = Ok a /\ nth_error l (Z.to_nat i) = Some a.
Proof.
  intros A l i Hi. unfold len in Hi.
  destruct (nth_error l (Z.to_nat i)) as [a|] eqn:E.
  - exists a. split; [|reflexivity].
    rewrite <- (Z2Nat.id i) by lia. apply getitem_nat. exact E.
  - apply nth_error_None in E. lia.
Qed.

(** C9: a flat index inside the text can be an error.  Without wrapping,
    the widget holds "x\nm\ny" and [replace_text] puts "m\nzzzzzz" in its
    place.  The opcodes of the old lines against the new ones are applied
    one after the other to the list they were computed for, with the places
    of the old list: once the first line is deleted, the replacement meant
    for the third line falls behind the end, and the widget is left with
    three lines, "m", "y", "zzzzzz", and the two flags of the new text.
    [replace_text] returns, and [get_cursor_from_index(8)], the end of the
    text, then raises [IndexError] at the third line, which has no flag.
    With [move_cursor_at_end] left at its default the lookup of index 5
    raises inside [replace_text] itself. *)
Theorem stale_lines_break_cursor_lookup :
  _split_smart no_wrap two_lines 0
  = ([s "m"; s "zzzzzz"], [0; FL_IS_LINEBREAK], [])
  /\ replace_text no_wrap opcodes_first_dropped two_lines (Some 0) (Some 5)
       false (reflowed no_wrap three_lines)
     = (Ok RNone, after_replace)
  /\ _current_text after_replace = two_lines
  /\ len (_current_text after_replace) = 8
  /\ _lines after_replace = [s "m"; s "y"; s "zzzzzz"]
  /\ _lines_flags after_replace = [0; FL_IS_LINEBREAK]
  /\ get_cursor_from_index after_replace 8 = Raise IndexError
  /\ fst (replace_text no_wrap opcodes_first_dropped two_lines (Some 0)
            (Some 5) true (reflowed no_wrap three_lines))
     = Raise IndexError.
Proof. by_evaluation. Qed.

(** ** Selection *)

Lemma boundary_mono : forall a b lo hi,
  a <= b -> boundary a lo hi <= boundary b lo hi.
Proof. intros. unfold boundary. lia. Qed.

Lemma select_text_reversed : forall st start end_,
  end_ < start ->
  select_text start end_ st
  = (Raise (Exception "end must be superior to start"), st).
Proof.
  intros st start end_ H. unfold select_text.
  replace (end_ <? start) with true by (symmetry; apply Z.ltb_lt; lia).
  reflexivity.
Qed.

(** For an ordered pair the two ends are stored before the selection is
    drawn. *)
Lemma select_text_ordered : forall st start end_,
  start <= end_ ->
  select_text start end_ st
  = (_update_graphics_selection ;;; ret RNone)
      (with_selection (boundary start 0 (len (_current_text st)))
         (boundary end_ 0 (len (_current_text st))) true
         (negb (boundary end_ 0 (len (_current_text st))
                - boundary start 0 (len (_current_text st)) =? 0)) st).
Proof.
  intros st start end_ H. unfold select_text.
  replace (end_ <? start) with false by (symmetry; apply Z.ltb_ge; lia).
  pose proof (boundary_mono start end_ 0 (len (_current_text st)) H) as Hm.
  replace (boundary start 0 (len (_current_text st))
           >? boundary end_ 0 (len (_current_text st))) with false
    by (symmetry; rewrite Z.gtb_ltb; apply Z.ltb_ge; exact Hm).
  reflexivity.
Qed.

(** Drawing the selection changes nothing of the widget's model. *)
Lemma update_graphics_selection_state : forall st,
  snd (_update_graphics_selection st) = st.
Proof.
  intros st. unfold _update_graphics_selection.
  destruct (negb (_selection st)); [reflexivity|].
  destruct (_selection_from st) as [from|]; [|reflexivity].
  destruct (_selection_to st) as [to|]; [|reflexivity].
  unfold bind, read, ret.
  destruct (get_cursor_from_index st (Z.min from to)); [|reflexivity].
  destruct (get_cursor_from_index st (Z.max from to)); reflexivity.
Qed.

(** It cannot fail when nothing is selected, nor when every line has its
    flag and both ends are set. *)
Lemma update_graphics_selection_ok : forall st,
  _selection st = false
  \/ ((length (_lines st) <= length (_lines_flags st))%nat
      /\ _selection_from st <> None /\ _selection_to st <> None) ->
  _update_graphics_selection st = (Ok tt, st).
Proof.
  intros st H. unfold _update_graphics_selection.
  destruct (_selection st) eqn:Es; [|reflexivity].
  destruct H as [H|(Hlen & Hfrom & Hto)]; [discriminate|]. cbn [negb].
  destruct (_selection_from st) as [from|]; [|congruence].
  destruct (_selection_to st) as [to|]; [|congruence].
  unfold bind, read, ret.
  destruct (get_cursor_from_index_total st (Z.min from to) Hlen) as [c1 H1].
  destruct (get_cursor_from_index_total st (Z.max from to) Hlen) as [c2 H2].
  rewrite H1, H2. reflexivity.
Qed.

(** C10: an ordered pair of indices inside the text can raise.  In the
    widget [replace_text] has left with three lines and two flags,
    [select_text(0, 8)] stores both ends and marks the selection finished,
    and then raises [IndexError] while the selection is drawn: the cursor of
    its end is looked up by [get_cursor_from_index].  A reversed pair raises
    the exception of [select_text] itself and leaves the widget as it
    was. *)
Theorem stale_lines_break_select_text :
  _lines after_replace = [s "m"; s "y"; s "zzzzzz"]
  /\ _lines_flags after_replace = [0; FL_IS_LINEBREAK]
  /\ len (_current_text after_replace) = 8
  /\ fst (select_text 0 8 after_replace) = Raise IndexError
  /\ _selection_from (snd (select_text 0 8 after_replace)) = Some 0
  /\ _selection_to (snd (select_text 0 8 after_replace)) = Some 8
  /\ _selection_finished (snd (select_text 0 8 after_replace)) = true
  /\ select_text 8 0 after_replace
     = (Raise (Exception "end must be superior to start"), after_replace).
Proof. by_evaluation. Qed.

(** ** Replacing text *)

Lemma bind_returns_none : forall (A : Type) (m : M A) (k : A -> M retval)
  st r st',
  (forall a st1 r1 st2, k a st1 = (Ok r1, st2) -> r1 = RNone) ->
  bind m k st = (Ok r, st') -> r = RNone.
Proof.
  intros A m k st r st' Hk H. unfold bind in H.
  destruct (m st) as [[a|e] st1]; [|discriminate].
  eapply Hk; eauto.
Qed.

(** C7, as stated, fails: on "abcdef" with start 4 and end 2 the call
    removes the two characters after the start, leaving "abcd", where
    deleting [2, 4) leaves "abef"; and it hands back [None], not [True],
    although the text changed. *)
Lemma replace_text_counterexample :
  let st := reflowed no_wrap (s "abcdef") in
  let out :=
    replace_text no_wrap opcodes_disjoint [] (Some 4) (Some 2) true st in
  fst out = Ok RNone
  /\ _current_text (snd out) = s "abcd"
  /\ replaced_text_by_range (s "abcdef") [] 4 2 = s "abef"
  /\ _current_text (snd out) <> replaced_text_by_range (s "abcdef") [] 4 2
  /\ fst out <> Ok (RBool true).
Proof. by_evaluation. Qed.

(** C7 (amended): [replace_text] hands back no boolean: every call that
    returns, returns [None]; and whenever the text it builds is identical
    to the current text it returns at once and leaves the whole widget
    unchanged. *)
Theorem replace_text_returns_none : forall o get_opcodes substring
  start_index end_index move_cursor_at_end st,
  (forall r st',
     replace_text o get_opcodes substring start_index end_index
       move_cursor_at_end st = (Ok r, st') ->
     r = RNone)
  /\ (replaced_text (_current_text st) substring
        (match start_index with Some i => i | None => 0 end)
        (match end_index with
         | Some i => i
         | None => len (_current_text st)
         end)
      = _current_text st ->
      replace_text o get_opcodes substring start_index end_index
        move_cursor_at_end st = (Ok RNone, st)).
Proof.
  intros o get_opcodes substring start_index end_index move st.
  unfold replace_text. split.
  - intros r st' H.
    destruct (str_eqb _ _); [congruence|].
    revert H. apply bind_returns_none. intros _ st1 r1 st2.
    apply bind_returns_none. intros _ st3 r2 st4.
    apply bind_returns_none. intros _ st5 r3 st6 H.
    unfold ret in H. congruence.
  - intros H. rewrite H.
    replace (str_eqb (_current_text st) (_current_text st)) with true
      by (symmetry; apply str_eqb_eq; reflexivity).
    reflexivity.
Qed.

Lemma replace_text_returns_none_witness :
  replaced_text (_current_text (reflowed no_wrap (s "abcdef"))) (s "cd")
    2 4 = _current_text (reflowed no_wrap (s "abcdef"))
  /\ replace_text no_wrap opcodes_disjoint (s "cd") (Some 2) (Some 4) true
       (reflowed no_wrap (s "abcdef"))
     = (Ok RNone, reflowed no_wrap (s "abcdef")).
Proof.
  split; [reflexivity|].
  apply (proj2 (replace_text_returns_none no_wrap opcodes_disjoint (s "cd")
                  (Some 2) (Some 4) true (reflowed no_wrap (s "abcdef")))).
  reflexivity.
Defined.

(** ** Cutting a word that is wider than the line *)

Lemma chars_width_app : forall o a b,
  chars_width o (a ++ b) = chars_width o a + chars_width o b.
Proof.
  intros o a b. induction a as [|c a IH]; simpl; [reflexivity|].
  unfold chars_width in *. simpl. rewrite IH. lia.
Qed.

(** The scan stops after a prefix whose characters fit together, at the
    first character that does not fit any more. *)
Lemma split_scan_spec : forall o word sw0 sp0 sw sp,
  split_scan o word sw0 sp0 = (sw, sp) ->
  (sp0 <= sp <= sp0 + length word)%nat
  /\ sw = sw0 + chars_width o (firstn (sp - sp0) word)
  /\ ((sp0 < sp)%nat -> sw <= width o)
  /\ (sp = sp0 ->
      match word with
      | [] => True
      | c :: _ => width o < sw0 + Z.of_N (_get_text_width o [c])
      end).
Proof.
  intros o word. induction word as [|c word IH]; intros sw0 sp0 sw sp H;
    simpl in H.
  - inversion H; subst. rewrite Nat.sub_diag. simpl.
    repeat split; auto; lia.
  - destruct (sw0 + Z.of_N (_get_text_width o [c]) >? width o) eqn:E.
    + inversion H; subst. rewrite Nat.sub_diag. simpl.
      apply Z.gtb_lt in E. repeat split; auto; lia.
    + assert (Hfit : sw0 + Z.of_N (_get_text_width o [c]) <= width o).
      { destruct (Z.gtb_spec (sw0 + Z.of_N (_get_text_width o [c]))
                    (width o)); [discriminate|lia]. }
      apply IH in H. destruct H as (H1 & H2 & H3 & H4).
      split; [simpl; lia|]. split; [|split].
      * replace (sp - sp0)%nat with (S (sp - S sp0)) by lia.
        simpl. unfold chars_width in *. simpl. lia.
      * intros _. destruct (Nat.eq_dec sp (S sp0)) as [->|Hne].
        -- rewrite Nat.sub_diag in H2. simpl in H2.
           unfold chars_width in H2. simpl in H2. lia.
        -- apply H3. lia.
      * intros ->. lia.
Qed.

(** What the cutting loop has done when it is left, for any fuel above the
    length of the word. *)
Lemma split_word_spec : forall o fuel word w word_end_index st,
  (length word < fuel)%nat ->
  exists fragments st' rest w',
    split_word o fuel word w word_end_index st = (st', rest, w')
    /\ ws_lines st' = ws_lines st ++ fragments
    /\ concat fragments ++ rest = word
    /\ Forall (fun fragment =>
                 fragment <> [] /\ chars_width o fragment <= width o)
         fragments
    /\ ws_lines_flags st'
       = ws_lines_flags st
         ++ match fragments with
            | [] => []
            | _ :: more =>
                ws_flags st :: map (fun _ => FL_IS_WORDBREAK) more
            end
    /\ ws_flags st'
       = match fragments with
         | [] => ws_flags st
         | _ :: _ => FL_IS_WORDBREAK
         end
    /\ w' = w - chars_width o (concat fragments)
    /\ (w' <= width o
        \/ match rest with
           | [] => True
           | c :: _ => width o < Z.of_N (_get_text_width o [c])
           end).
Proof.
  intros o fuel. induction fuel as [|fuel IH];
    intros word w wend st Hfuel; [lia|].
  simpl. destruct (w >? width o) eqn:Ew.
  - destruct (split_scan o word 0 0) as [sw sp] eqn:Escan.
    destruct (split_scan_spec _ _ _ _ _ _ Escan) as (H1 & H2 & H3 & H4).
    rewrite Nat.sub_0_r in H2. simpl in H2.
    destruct ((sw =? Z.of_nat sp) && (Z.of_nat sp =? 0)) eqn:Ebreak.
    + (* not even one character fits: the loop gives up *)
      apply andb_true_iff in Ebreak. destruct Ebreak as [_ Ezero].
      apply Z.eqb_eq in Ezero. assert (sp = 0%nat) by lia. subst sp.
      exists [], st, word, w. rewrite !app_nil_r. simpl.
      repeat split; auto; try lia.
      right. specialize (H4 eq_refl). destruct word; auto.
    + (* a fragment is cut and the loop goes on with what is left *)
      assert (Hsp : (0 < sp)%nat).
      { destruct sp; [|lia]. simpl in H2. subst sw. discriminate. }
      destruct (IH (skipn sp word) (w - sw) wend
                  (push_fragment st (firstn sp word)
                     (wend - Z.of_nat sp)))
        as (fragments & st' & rest & w' & Hs & Hl & Hc & Hf & Hfl & Hg
            & Hw & Hexit).
      { rewrite length_skipn. lia. }
      exists (firstn sp word :: fragments), st', rest, w'.
      split; [exact Hs|]. simpl in Hl, Hfl, Hg.
      split; [rewrite Hl, <- app_assoc; reflexivity|].
      split; [simpl; rewrite <- app_assoc, Hc; apply firstn_skipn|].
      split.
      { constructor; [|exact Hf]. split.
        - destruct word; [simpl in H1; lia|].
          destruct sp; [lia|discriminate].
        - rewrite <- H2. apply H3. exact Hsp. }
      split.
      { rewrite Hfl, <- app_assoc. simpl. destruct fragments; reflexivity. }
      split; [destruct fragments; assumption|].
      split; [|exact Hexit].
      simpl. rewrite chars_width_app. lia.
  - exists [], st, word, w. rewrite !app_nil_r. simpl.
    assert (w <= width o)
      by (destruct (Z.gtb_spec w (width o)); [discriminate|lia]).
    repeat split; auto; lia.
Qed.

Lemma split_word_fuel_any : forall o fuel1 fuel2 word w word_end_index st,
  (length word < fuel1)%nat -> (length word < fuel2)%nat ->
  split_word o fuel1 word w word_end_index st
  = split_word o fuel2 word w word_end_index st.
Proof.
  intros o fuel1. induction fuel1 as [|fuel1 IH];
    intros fuel2 word w wend st H1 H2; [lia|].
  destruct fuel2 as [|fuel2]; [lia|].
  simpl. destruct (w >? width o); [|reflexivity].
  destruct (split_scan o word 0 0) as [sw sp] eqn:Escan.
  destruct (split_scan_spec _ _ _ _ _ _ Escan) as (Hsp & Hsw & _ & _).
  rewrite Nat.sub_0_r in Hsw. simpl in Hsw.
  destruct ((sw =? Z.of_nat sp) && (Z.of_nat sp =? 0)) eqn:Ebreak;
    [reflexivity|].
  assert (Hpos : (0 < sp)%nat).
  { destruct sp; [|lia]. simpl in Hsw. subst sw. discriminate. }
  apply IH; rewrite length_skipn; lia.
Qed.

(** The fuel [_split_smart] gives the loop is enough: more changes
    nothing. *)
Lemma split_word_fuel : forall o fuel word w word_end_index st,
  (length word < fuel)%nat ->
  split_word o fuel word w word_end_index st
  = split_word o (S (length word)) word w word_end_index st.
Proof.
  intros. apply split_word_fuel_any; lia.
Qed.

(** C8, as stated, fails: at width 5, with [W] ten units wide and every
    other character one, the single token "aaWaaaa" becomes the lines "aa"
    and "Waaaa".  The second one is five characters long and fourteen units
    wide: once a character does not fit, the loop gives up and the whole
    remainder stays on one line.  The fragment that was cut short, "aa",
    has flags 0; the word-break flag is on the line after the cut. *)
Lemma wide_character_counterexample :
  _tokenize (s "aaWaaaa") = [(s "aaWaaaa", 7)]
  /\ _split_smart (wrap_wide_W 5) (s "aaWaaaa") 0
     = ([s "aa"; s "Waaaa"], [0; FL_IS_WORDBREAK], [5; 7])
  /\ wide_W (s "Waaaa") = 14%N
  /\ ~ Forall (fun fragment =>
                 Z.of_N (wide_W fragment) <= 5 \/ length fragment = 1%nat)
         (fst (fst (_split_smart (wrap_wide_W 5) (s "aaWaaaa") 0))).
Proof.
  split; [reflexivity|]. split; [reflexivity|]. split; [reflexivity|].
  intros H. vm_compute in H.
  inversion H as [|? ? _ H1]; subst. inversion H1 as [|? ? H2 _]; subst.
  destruct H2 as [H2|H2]; [apply H2; reflexivity|discriminate].
Qed.

(** The cutting loop leaves the pending line alone. *)
Lemma split_word_line : forall o fuel word w word_end_index st,
  ws_line (fst (fst (split_word o fuel word w word_end_index st)))
  = ws_line st.
Proof.
  intros o fuel. induction fuel as [|fuel IH]; intros word w wend st;
    cbn [split_word]; destruct (w >? width o); try reflexivity;
    destruct (split_scan o word 0 0) as [sw sp];
    destruct ((sw =? Z.of_nat sp) && (Z.of_nat sp =? 0)); try reflexivity.
  rewrite IH. reflexivity.
Qed.

(** C8 (amended): with wrapping on and a width W >= 1, a token of any text
    whose measured width exceeds W is cut by [_split_smart].  When its turn
    comes the pending line, if there is one, is pushed; then fragments of
    the token are pushed as lines of their own, never empty, their
    characters, measured one by one, adding up to at most W; the first
    fragment is pushed under the flags in force and every line after a cut
    is flagged WORDBREAK; fragments and remainder together are the token.
    The cutting ends with a remainder whose residual width is at most W, or
    whose first character alone is wider than W (or with nothing left): the
    remainder, however long, is then the whole of the new current line, and
    the loop goes on with the next token. *)
Theorem split_smart_cuts_wide_token : forall o text flags before word
  word_end_index after,
  multiline o = true ->
  do_wrap o = true ->
  1 <= width o ->
  _tokenize text = before ++ (word, word_end_index) :: after ->
  word <> [nl] ->
  width o < Z.of_N (_get_text_width o word) ->
  exists fragments rest,
    let st := fold_left (wrap_step o) before (wrap_init flags) in
    let st1 := if nonempty (ws_line st) then push_line st else st in
    let st' := wrap_step o st (word, word_end_index) in
    concat fragments ++ rest = word
    /\ Forall (fun fragment =>
                 fragment <> [] /\ chars_width o fragment <= width o)
         fragments
    /\ ws_lines st' = ws_lines st1 ++ fragments
    /\ ws_lines_flags st'
       = ws_lines_flags st1
         ++ match fragments with
            | [] => []
            | _ :: more =>
                ws_flags st1 :: map (fun _ => FL_IS_WORDBREAK) more
            end
    /\ ws_flags st'
       = match fragments with
         | [] => ws_flags st1
         | _ :: _ => FL_IS_WORDBREAK
         end
    /\ ws_line st' = [rest]
    /\ ws_x st'
       = Z.of_N (_get_text_width o word) - chars_width o (concat fragments)
    /\ (ws_x st' <= width o
        \/ match rest with
           | [] => True
           | c :: _ => width o < Z.of_N (_get_text_width o [c])
           end)
    /\ _split_smart o text flags
       = wrap_finish (fold_left (wrap_step o) after st').
Proof.
  intros o text flags before word wend after Hmulti Hwrap Hwidth Htokens
    Hword Hwide.
  destruct (wrap_fold_text o flags before (wrap_init flags)
              (wrap_init_inv flags)) as [[_ Hx _] _].
  set (st := fold_left (wrap_step o) before (wrap_init flags)) in *.
  set (st1 := if nonempty (ws_line st) then push_line st else st).
  assert (Hline1 : ws_line st1 = []).
  { unfold st1. destruct (nonempty (ws_line st)) eqn:E; [reflexivity|].
    apply nonempty_false. exact E. }
  assert (Hnl : str_eqb word [nl] = false).
  { destruct (str_eqb word [nl]) eqn:E; [|reflexivity].
    apply str_eqb_eq in E. contradiction. }
  destruct (split_word_spec o (S (length word)) word
              (Z.of_N (_get_text_width o word)) wend st1 ltac:(lia))
    as (fragments & st2 & rest & w' & Hs & Hl & Hc & Hf & Hfl & Hg & Hw
        & Hexit).
  pose proof (split_word_line o (S (length word)) word
                (Z.of_N (_get_text_width o word)) wend st1) as Hline2.
  rewrite Hs in Hline2. cbn [fst] in Hline2.
  assert (Hstep : wrap_step o st (word, wend)
                  = append_word st2 w' rest wend).
  { unfold wrap_step. rewrite Hnl.
    replace (ws_x st + Z.of_N (_get_text_width o word) >? width o)
      with true by (symmetry; apply Z.gtb_lt; lia).
    rewrite andb_true_l, orb_false_r. fold st1.
    replace (1 <=? width o) with true by (symmetry; apply Z.leb_le; lia).
    replace (Z.of_N (_get_text_width o word) >? width o) with true
      by (symmetry; apply Z.gtb_lt; lia).
    cbn [andb]. rewrite Hs. reflexivity. }
  exists fragments, rest. cbv zeta. fold st. fold st1. rewrite Hstep.
  cbn [append_word ws_lines ws_lines_flags ws_flags ws_line ws_x].
  split; [exact Hc|]. split; [exact Hf|]. split; [exact Hl|].
  split; [exact Hfl|]. split; [exact Hg|].
  split; [rewrite Hline2, Hline1; reflexivity|].
  split; [exact Hw|]. split; [exact Hexit|].
  unfold _split_smart. rewrite Hmulti, Hwrap. cbn [negb orb].
  rewrite Htokens.
  change (before ++ (word, wend) :: after)
    with (before ++ [(word, wend)] ++ after).
  rewrite app_assoc, !fold_left_app. cbn [fold_left]. fold st.
  rewrite Hstep. reflexivity.
Qed.

Lemma split_smart_cuts_wide_token_witness :
  exists fragments rest,
    concat fragments ++ rest = s "aaWaaaa"
    /\ ws_lines
         (wrap_step (wrap_wide_W 5)
            (fold_left (wrap_step (wrap_wide_W 5))
               [(s "x ", 2)] (wrap_init 0))
            (s "aaWaaaa", 9))
       = ws_lines
           (push_line
              (fold_left (wrap_step (wrap_wide_W 5))
                 [(s "x ", 2)] (wrap_init 0)))
         ++ fragments
    /\ ws_line
         (wrap_step (wrap_wide_W 5)
            (fold_left (wrap_step (wrap_wide_W 5))
               [(s "x ", 2)] (wrap_init 0))
            (s "aaWaaaa", 9))
       = [rest].
Proof.
  destruct (split_smart_cuts_wide_token (wrap_wide_W 5) (s "x aaWaaaa") 0
              [(s "x ", 2)] (s "aaWaaaa") 9
              [])
    as (fragments & rest & Hc & _ & Hl & _ & _ & Hline & _).
  - reflexivity.
  - reflexivity.
  - vm_compute. discriminate.
  - vm_compute. reflexivity.
  - discriminate.
  - vm_compute. reflexivity.
  - exists fragments, rest.
    split; [exact Hc|]. split; [exact Hl|exact Hline].
Defined.

(** ** The loops with a round count *)

Lemma half_between : forall lo hi : nat,
  (lo < hi)%nat -> (lo <= (lo + hi) / 2 < hi)%nat.
Proof.
  intros lo hi H. split.
  - apply Nat.div_le_lower_bound; lia.
  - apply Nat.Div0.div_lt_upper_bound; lia.
Qed.

(** The search needs no more rounds than the interval is long. *)
Lemma bisect_loop_fuel : forall fuel1 fuel2 a x lo hi,
  (hi - lo < fuel1)%nat -> (hi - lo < fuel2)%nat ->
  bisect_loop fuel1 a x lo hi = bisect_loop fuel2 a x lo hi.
Proof.
  induction fuel1 as [|fuel1 IH]; intros fuel2 a x lo hi H1 H2; [lia|].
  destruct fuel2 as [|fuel2]; [lia|]. cbn [bisect_loop].
  destruct (lo <? hi)%nat eqn:E; [|reflexivity].
  apply Nat.ltb_lt in E. pose proof (half_between lo hi E) as Hmid.
  set (mid := ((lo + hi) / 2)%nat) in *.
  destruct (nth mid a 0 <? x); apply IH; lia.
Qed.

Lemma expand_left_fuel : forall fuel1 fuel2 flags rfrom,
  rfrom <= Z.of_nat fuel1 -> rfrom <= Z.of_nat fuel2 ->
  expand_left fuel1 flags rfrom = expand_left fuel2 flags rfrom.
Proof.
  induction fuel1 as [|fuel1 IH]; intros fuel2 flags rfrom H1 H2;
    destruct fuel2 as [|fuel2]; simpl;
    destruct (0 <? rfrom) eqn:E; try reflexivity;
    apply Z.ltb_lt in E; try lia.
  destruct (getitem flags (rfrom - 1)) as [flag|e]; [|reflexivity].
  destruct (has_flag flag FL_IS_NEWLINE); [reflexivity|].
  apply IH; lia.
Qed.

Lemma expand_right_fuel : forall fuel1 fuel2 flags rmax rto,
  rmax - rto <= Z.of_nat fuel1 -> rmax - rto <= Z.of_nat fuel2 ->
  expand_right fuel1 flags rmax rto = expand_right fuel2 flags rmax rto.
Proof.
  induction fuel1 as [|fuel1 IH]; intros fuel2 flags rmax rto H1 H2;
    destruct fuel2 as [|fuel2]; simpl;
    destruct ((0 <? rto) && (rto <? rmax)) eqn:E; try reflexivity;
    apply andb_true_iff in E; destruct E as [_ E];
    apply Z.ltb_lt in E; try lia.
  destruct (getitem flags (rto - 1)) as [flag|e]; [|reflexivity].
  destruct (has_flag flag FL_IS_NEWLINE); [reflexivity|].
  apply IH; lia.
Qed.

(** ** Incremental reflow *)

Lemma slice_from_0 : forall (A : Type) (l : list A),
  slice l (Some 0) None = l.
Proof.
  intros A l. unfold slice, slice_bound, substring, len. simpl.
  replace (Z.to_nat (Z.min 0 (Z.of_nat (length l)))) with 0%nat by lia.
  rewrite Nat2Z.id, Nat.sub_0_r. simpl. apply firstn_all.
Qed.

Lemma setslice_from_0 : forall (A : Type) (l chunk : list A),
  setslice_from l 0 chunk = chunk.
Proof.
  intros A l chunk. unfold setslice_from, slice_bound. simpl.
  pose proof (len_nonneg _ l).
  replace (Z.to_nat (Z.min 0 (len l))) with 0%nat by lia.
  reflexivity.
Qed.

(** The fallback: with fewer than two recorded offsets, or a new text that
    does not begin with the rendered one, the whole text is split under
    flags 0 and its flags and offsets replace the old ones; the lines are
    left to the opcodes. *)
Lemma incremental_fallback : forall o get_opcodes text st,
  (1 <? len (_lines_indexes st)) && starts_with text (_rendered_text st)
  = false ->
  incremental_start st text = Ok (0, 0, 0)
  /\ _lines_flags (snd (refresh_lines_textinput o get_opcodes text st))
     = snd (fst (_split_smart o text 0))
  /\ _lines_indexes (snd (refresh_lines_textinput o get_opcodes text st))
     = map (fun ix => 0 + ix) (snd (_split_smart o text 0)).
Proof.
  intros o get_opcodes text st H.
  assert (Hstart : incremental_start st text = Ok (0, 0, 0)).
  { unfold incremental_start. rewrite H. reflexivity. }
  split; [exact Hstart|].
  unfold refresh_lines_textinput, bind, read, write. rewrite Hstart.
  rewrite slice_from_0.
  destruct (_split_smart o text 0) as [[lines flags] indexes]. simpl.
  rewrite !setslice_from_0. split; reflexivity.
Qed.

(** C5 at a failing input: the text "abcdefgh" laid out at width 3 (every
    character one unit wide) and extended by "ijklm".  The incremental path
    restarts at line 1 from text offset 5, the offset recorded for line 0 by
    the cutting loop, although line 0 ends at offset 3.  Whatever the diff of
    the lines gives, it leaves four flags where a reflow from scratch has
    five; with the diff of lines that have nothing in common the lines are
    "abc", "fgh", "ijk", "lm", where a reflow from scratch gives "abc",
    "def", "ghi", "jkl", "m": the characters "de" are lost.  Typing the
    single character "i" already does it: "abc", "fgh", "i" instead of
    "abc", "def", "ghi". *)
Theorem incremental_reflow_diverges :
  forall get_opcodes : list str -> list str -> list opcode,
  _split_smart (wrap_at 3) (s "abcdefgh") 0
  = ([s "abc"; s "def"; s "gh"], [0; 2; 2], [5; 5; 8])
  /\ incremental_start (reflowed (wrap_at 3) (s "abcdefgh"))
       (s "abcdefghijklm") = Ok (1, 5, FL_IS_WORDBREAK)
  /\ _lines_flags
       (snd (refresh_lines_textinput (wrap_at 3) get_opcodes
               (s "abcdefghijklm") (reflowed (wrap_at 3) (s "abcdefgh"))))
     = [0; 2; 2; 2]
  /\ _lines
       (snd (replace_text (wrap_at 3) opcodes_disjoint (s "ijklm")
               (Some 8) (Some 8) true (reflowed (wrap_at 3) (s "abcdefgh"))))
     = [s "abc"; s "fgh"; s "ijk"; s "lm"]
  /\ _split_smart (wrap_at 3) (s "abcdefghijklm") 0
     = ([s "abc"; s "def"; s "ghi"; s "jkl"; s "m"], [0; 2; 2; 2; 2],
        [10; 10; 10; 10; 13])
  /\ _lines
       (snd (replace_text (wrap_at 3) opcodes_disjoint (s "i")
               (Some 8) (Some 8) true (reflowed (wrap_at 3) (s "abcdefgh"))))
     = [s "abc"; s "fgh"; s "i"]
  /\ _lines (reflowed (wrap_at 3) (s "abcdefghi"))
     = [s "abc"; s "def"; s "ghi"].
Proof.
  intros get_opcodes. by_evaluation.
Qed.

(** ** Row expansion *)

(** C6 at a failing input: "aa bb cc\nzz" at width 3 is the paragraph
    "aa bb cc" on three rows, its newline, and the row "zz".  From index 4,
    in the middle row, the rows come out as (1, 3) and the span as (3, 9):
    the first row of the paragraph is left out and the newline at offset 8
    is taken in, where the paragraph is the span (0, 8).  The flags are
    read from the reversed list, so the row before the start is judged by
    the flag of the last row. *)
Theorem expand_range_misses_paragraph :
  _lines (reflowed (wrap_at 3) two_paragraphs)
  = [s "aa "; s "bb "; s "cc"; s "zz"]
  /\ _lines_flags (reflowed (wrap_at 3) two_paragraphs)
     = [0; 0; 0; FL_IS_LINEBREAK]
  /\ get_cursor_from_index (reflowed (wrap_at 3) two_paragraphs) 4
     = Ok (1, 1)
  /\ _expand_rows (reflowed (wrap_at 3) two_paragraphs) 1 (Some 2)
     = Ok (1, 3)
  /\ _expand_range (reflowed (wrap_at 3) two_paragraphs) 4 None
     = Ok (3, 9)
  /\ slice two_paragraphs (Some 3) (Some 9) = s "bb cc" ++ [nl]
  /\ slice two_paragraphs (Some 0) (Some 8) = s "aa bb cc".
Proof. by_evaluation. Qed.

(** * Further properties *)

(** ** The tokenizer *)

Lemma firstn_succ_snoc : forall (A : Type) (n : nat) (l : list A) (a : A)
  (rest : list A),
  skipn n l = a :: rest -> firstn (S n) l = firstn n l ++ [a].
Proof.
  induction n as [|n IH]; intros l a rest H.
  - simpl in H. subst l. reflexivity.
  - destruct l as [|b l]; [discriminate|]. simpl in H.
    change (firstn (S (S n)) (b :: l)) with (b :: firstn (S n) l).
    rewrite (IH l a rest H). reflexivity.
Qed.

Lemma substring_snoc : forall (text : str) (old index : nat) (c : ascii)
  (rest : str),
  (old <= index)%nat -> skipn index text = c :: rest ->
  substring old (S index) text = substring old index text ++ [c].
Proof.
  intros text old index c rest Hold H. unfold substring.
  replace (S index - old)%nat with (S (index - old)) by lia.
  apply firstn_succ_snoc with (rest := rest).
  rewrite skipn_skipn. replace (index - old + old)%nat with index by lia.
  exact H.
Qed.

Lemma substring_empty : forall (text : str) (index : nat),
  substring index index text = [].
Proof. intros. unfold substring. rewrite Nat.sub_diag. reflexivity. Qed.

Lemma substring_to_end : forall (text : str) (old index : nat),
  (length text <= index)%nat -> substring old index text = skipn old text.
Proof.
  intros text old index H. unfold substring.
  apply firstn_all2. rewrite length_skipn. lia.
Qed.

Lemma substring_length : forall (text : str) (old index : nat),
  (old <= index <= length text)%nat ->
  length (substring old index text) = (index - old)%nat.
Proof.
  intros text old index H. unfold substring.
  rewrite length_firstn, length_skipn. lia.
Qed.

Lemma skipn_cons_lt : forall (A : Type) (l : list A) (n : nat) (a : A)
  (rest : list A), skipn n l = a :: rest -> (n < length l)%nat.
Proof.
  intros A l n a rest H. pose proof (length_skipn n l) as Hl.
  rewrite H in Hl. simpl in Hl. lia.
Qed.

Lemma delimiter_not_newline : forall c,
  in_delimiters c = true -> c <> nl.
Proof. intros c H ->. discriminate H. Qed.

(** A token of the kind the tokenizer yields in front of the one it is
    about to read. *)
Lemma pending_token_kind : forall (text : str) (old index : nat),
  (old <= index <= length text)%nat ->
  ~ In nl (substring old index text) ->
  Forall (fun token => fst token <> [] /\ ~ In nl (fst token))
    (pending_token text old index)
  /\ token_offsets (Z.of_nat old) (pending_token text old index)
  /\ Z.of_nat old + len (concat (map fst (pending_token text old index)))
     = Z.of_nat index.
Proof.
  intros text old index H Hnl. unfold pending_token.
  destruct (old <? index)%nat eqn:E.
  - apply Nat.ltb_lt in E.
    pose proof (substring_length text old index H) as Hlen.
    split; [|split].
    + constructor; [|constructor]. simpl. split; [|exact Hnl].
      intros Heq. rewrite Heq in Hlen. simpl in Hlen. lia.
    + simpl. split; [|exact I].
      replace (str_eqb (substring old index text) [nl]) with false.
      * unfold len. rewrite Hlen. lia.
      * symmetry. apply not_true_is_false. intros Heq.
        apply str_eqb_eq in Heq. apply Hnl. rewrite Heq. left. reflexivity.
    + simpl. rewrite app_nil_r. unfold len. rewrite Hlen. lia.
  - apply Nat.ltb_ge in E. split; [constructor|]. split; [exact I|].
    simpl. unfold len. simpl. lia.
Qed.

Lemma token_offsets_app : forall front back start,
  token_offsets start front ->
  token_offsets (start + len (concat (map fst front))) back ->
  token_offsets start (front ++ back).
Proof.
  induction front as [|[word e] front IH]; intros back start Hf Hb.
  - simpl in *. replace (start + len (@nil ascii)) with start in Hb
      by (unfold len; simpl; lia). exact Hb.
  - simpl in *. destruct Hf as [He Hf]. split; [exact He|].
    apply IH; [exact Hf|]. rewrite len_app in Hb.
    replace (start + len word + len (concat (map fst front)))
      with (start + (len word + len (concat (map fst front)))) by lia.
    exact Hb.
Qed.

(** Everything the loop of the tokenizer keeps true, from any point of the
    text on. *)
Lemma tokenize_from_tokens : forall (text rest : str) (index old : nat)
  (prev_char : option ascii),
  skipn index text = rest -> (old <= index <= length text)%nat ->
  ~ In nl (substring old index text) ->
  Forall (fun token => fst token = [nl] \/ ~ In nl (fst token))
    (tokenize_from text rest index old prev_char)
  /\ token_offsets (Z.of_nat old)
       (tokenize_from text rest index old prev_char)
  /\ exists front last,
       tokenize_from text rest index old prev_char = front ++ [last]
       /\ Forall (fun token => fst token <> []) front
       /\ ~ In nl (fst last)
       /\ snd last = len text.
Proof.
  intros text rest. induction rest as [|char rest IH];
    intros index old prev_char Hrest Hold Hnl.
  - (* the end of the text: the last token *)
    assert (Hend : (length text <= index)%nat)
      by (apply skipn_nil_length; exact Hrest).
    rewrite (substring_to_end _ _ _ Hend) in Hnl. simpl.
    split; [constructor; [right; exact Hnl|constructor]|].
    split.
    + split; [|exact I].
      replace (str_eqb (skipn old text) [nl]) with false.
      * unfold len. rewrite length_skipn. lia.
      * symmetry. apply not_true_is_false. intros Heq.
        apply str_eqb_eq in Heq. apply Hnl. rewrite Heq. left. reflexivity.
    + exists [], (skipn old text, len text). simpl. auto.
  - pose proof (skipn_cons_next _ _ _ _ _ Hrest) as Hnext.
    pose proof (skipn_cons_lt _ _ _ _ _ Hrest) as Hlt.
    pose proof (substring_snoc text old index char rest
                  ltac:(lia) Hrest) as Hsnoc.
    assert (Hkeep : char <> nl -> ~ In nl (substring old (S index) text)).
    { intros Hc. rewrite Hsnoc. intros Hin. apply in_app_or in Hin.
      destruct Hin as [Hin|[Hin|[]]]; [contradiction|congruence]. }
    destruct (pending_token_kind text old index ltac:(lia) Hnl)
      as (Hpk & Hpo & Hpl).
    assert (Hpk' : Forall (fun token => fst token = [nl]
                                       \/ ~ In nl (fst token))
                     (pending_token text old index)).
    { eapply Forall_impl; [|exact Hpk]. intros t [_ Ht]. right. exact Ht. }
    assert (Hpn : Forall (fun token => fst token <> [])
                    (pending_token text old index)).
    { eapply Forall_impl; [|exact Hpk]. intros t [Ht _]. exact Ht. }
    simpl. destruct (negb (in_delimiters char)) eqn:Edelim.
    + destruct (negb (Ascii.eqb char nl)) eqn:Enl.
      * (* an ordinary character *)
        apply negb_true_iff, Ascii.eqb_neq in Enl.
        destruct ((0 <? index)%nat && prev_in_delimiters prev_char).
        -- destruct (IH (S index) index (Some char) Hnext ltac:(lia))
             as (H1 & H2 & front & last & H3 & H4 & H5 & H6).
           { rewrite (substring_snoc text index index char rest
                        ltac:(lia) Hrest), substring_empty.
             intros [Hin|[]]. congruence. }
           split; [apply Forall_app; split; assumption|].
           split; [apply token_offsets_app; [exact Hpo|];
                   rewrite Hpl; exact H2|].
           exists (pending_token text old index ++ front), last.
           rewrite H3, app_assoc. split; [reflexivity|].
           split; [apply Forall_app; split; assumption|]. auto.
        -- apply IH; auto. lia.
      * (* a newline: the pending token, then the newline alone *)
        apply negb_false_iff, Ascii.eqb_eq in Enl. subst char.
        assert (Hone : substring index (S index) text = [nl]).
        { rewrite (substring_snoc text index index nl rest
                     ltac:(lia) Hrest), substring_empty. reflexivity. }
        rewrite Hone.
        destruct (IH (S index) (S index) (Some nl) Hnext ltac:(lia))
          as (H1 & H2 & front & last & H3 & H4 & H5 & H6).
        { rewrite substring_empty. intros []. }
        split.
        { apply Forall_app. split; [exact Hpk'|].
          constructor; [left; reflexivity|exact H1]. }
        split.
        { apply token_offsets_app; [exact Hpo|]. rewrite Hpl.
          simpl. split; [reflexivity|].
          replace (Z.of_nat index + len [nl]) with (Z.of_nat (S index))
            by (unfold len; simpl; lia).
          exact H2. }
        exists (pending_token text old index
                ++ ([nl], Z.of_nat index) :: front), last.
        rewrite H3. rewrite <- app_assoc. simpl.
        split; [reflexivity|].
        split; [|auto].
        apply Forall_app. split; [exact Hpn|].
        constructor; [discriminate|exact H4].
    + (* a delimiter *)
      apply negb_false_iff in Edelim.
      apply IH; auto; [lia|].
      apply Hkeep. apply delimiter_not_newline. exact Edelim.
Qed.

(** X1: the tokens of a text, one after the other, are the text, and a
    newline is always a token of its own: every token is the single
    character "\n" or contains no newline at all. *)
Theorem tokenize_partitions_text : forall text : str,
  concat (map fst (_tokenize text)) = text
  /\ Forall (fun token => fst token = [nl] \/ ~ In nl (fst token))
       (_tokenize text).
Proof.
  intros text. split.
  - unfold _tokenize. rewrite tokenize_from_concat; auto.
  - apply (tokenize_from_tokens text text 0 0 None eq_refl); [lia|].
    rewrite substring_empty. intros [].
Qed.

(** X2: the tokenizer always yields at least one token; the last one ends
    at the length of the text, holds no newline and may be empty, and it is
    the only one that may: every token before it is non-empty. *)
Theorem tokenize_last_token : forall text : str,
  exists front last,
    _tokenize text = front ++ [last]
    /\ Forall (fun token => fst token <> []) front
    /\ ~ In nl (fst last)
    /\ snd last = len text.
Proof.
  intros text.
  apply (tokenize_from_tokens text text 0 0 None eq_refl); [lia|].
  rewrite substring_empty. intros [].
Qed.

(** X3: the index that comes with a token is the text offset just past the
    token, except for a newline token, which comes with the offset of the
    newline itself. *)
Theorem tokenize_end_offsets : forall text : str,
  token_offsets 0 (_tokenize text).
Proof.
  intros text.
  apply (tokenize_from_tokens text text 0 0 None eq_refl); [lia|].
  rewrite substring_empty. intros [].
Qed.

(** ** The shape of a reflow *)

Lemma concat_no_newline : forall words : list str,
  Forall (fun word => ~ In nl word) words -> ~ In nl (concat words).
Proof.
  induction words as [|word words IH]; intros H; simpl.
  - intros [].
  - inversion H; subst. intros Hin. apply in_app_or in Hin.
    destruct Hin; [contradiction|]. apply IH; assumption.
Qed.

Lemma firstn_no_newline : forall (n : nat) (word : str),
  ~ In nl word -> ~ In nl (firstn n word).
Proof.
  intros n word H Hin. apply H.
  rewrite <- (firstn_skipn n word). apply in_or_app. left. exact Hin.
Qed.

Lemma skipn_no_newline : forall (n : nat) (word : str),
  ~ In nl word -> ~ In nl (skipn n word).
Proof.
  intros n word H Hin. apply H.
  rewrite <- (firstn_skipn n word). apply in_or_app. right. exact Hin.
Qed.

Lemma push_line_shape : forall st, wrap_shape st -> wrap_shape (push_line st).
Proof.
  intros st [Hf Hi Hl Hw]. split; simpl.
  - rewrite !length_app, Hf. reflexivity.
  - rewrite !length_app, Hi. reflexivity.
  - apply Forall_app. split; [exact Hl|].
    constructor; [|constructor]. apply concat_no_newline. exact Hw.
  - constructor.
Qed.

Lemma split_word_shape : forall o fuel word w word_end_index st st' rest w',
  split_word o fuel word w word_end_index st = (st', rest, w') ->
  wrap_shape st -> ~ In nl word ->
  wrap_shape st' /\ ~ In nl rest /\ ws_line st' = ws_line st.
Proof.
  intros o fuel. induction fuel as [|fuel IH];
    intros word w wend st st' rest w' H Hshape Hword; simpl in H.
  - destruct (w >? width o);
      [destruct (split_scan o word 0 0) as [sw sp];
       destruct ((sw =? Z.of_nat sp) && (Z.of_nat sp =? 0))|];
      inversion H; subst; auto.
  - destruct (w >? width o); [|inversion H; subst; auto].
    destruct (split_scan o word 0 0) as [sw sp].
    destruct ((sw =? Z.of_nat sp) && (Z.of_nat sp =? 0));
      [inversion H; subst; auto|].
    apply IH in H.
    + exact H.
    + destruct Hshape as [Hf Hi Hl Hw]. split; simpl.
      * rewrite !length_app, Hf. reflexivity.
      * rewrite !length_app, Hi. reflexivity.
      * apply Forall_app. split; [exact Hl|].
        constructor; [|constructor]. apply firstn_no_newline. exact Hword.
      * exact Hw.
    + apply skipn_no_newline. exact Hword.
Qed.

Lemma not_newline_token : forall word : str,
  ~ In nl word -> str_eqb word [nl] = false.
Proof.
  intros word H. apply not_true_is_false. intros Heq.
  apply str_eqb_eq in Heq. apply H. rewrite Heq. left. reflexivity.
Qed.

(** One token more: the shape is kept, and a token that is not a newline
    ends up on the pending line, which then stands at the token's index. *)
Lemma wrap_step_shape : forall o st word word_end_index,
  wrap_shape st ->
  word = [nl] \/ ~ In nl word ->
  wrap_shape (wrap_step o st (word, word_end_index))
  /\ (~ In nl word ->
      ws_line (wrap_step o st (word, word_end_index)) <> []
      /\ ws_line_index (wrap_step o st (word, word_end_index))
         = word_end_index).
Proof.
  intros o st word wend Hshape Hword. unfold wrap_step.
  set (w := Z.of_N (_get_text_width o word)).
  destruct Hword as [->|Hword].
  - simpl. rewrite orb_true_r.
    pose proof (push_line_shape _ Hshape) as [Hf Hi Hl Hw].
    split; [split; simpl in *; assumption|].
    intros Hno. exfalso. apply Hno. left. reflexivity.
  - rewrite (not_newline_token _ Hword). rewrite orb_false_r.
    assert (Hpre : wrap_shape
                     (if (ws_x st + w >? width o) && nonempty (ws_line st)
                      then push_line st else st)).
    { destruct ((ws_x st + w >? width o) && nonempty (ws_line st));
        [apply push_line_shape|]; exact Hshape. }
    set (st1 := if (ws_x st + w >? width o) && nonempty (ws_line st)
                then push_line st else st) in *.
    destruct ((1 <=? width o) && (w >? width o)).
    + destruct (split_word o (S (length word)) word w wend st1)
        as [[st2 word'] w'] eqn:Esplit.
      destruct (split_word_shape _ _ _ _ _ _ _ _ _ Esplit Hpre Hword)
        as ([Hf Hi Hl Hw] & Hrest & Hline).
      split.
      * split; simpl; auto. apply Forall_app. split; [exact Hw|].
        constructor; [exact Hrest|constructor].
      * intros _. simpl. split; [|reflexivity].
        destruct (ws_line st2); discriminate.
    + destruct Hpre as [Hf Hi Hl Hw]. split.
      * split; simpl; auto. apply Forall_app. split; [exact Hw|].
        constructor; [exact Hword|constructor].
      * intros _. simpl. split; [|reflexivity].
        destruct (ws_line st1); discriminate.
Qed.

Lemma wrap_fold_shape : forall o tokens st,
  wrap_shape st ->
  Forall (fun token => fst token = [nl] \/ ~ In nl (fst token)) tokens ->
  wrap_shape (fold_left (wrap_step o) tokens st).
Proof.
  intros o tokens. induction tokens as [|[word wend] tokens IH];
    intros st Hshape Htokens; cbn [fold_left].
  - exact Hshape.
  - inversion Htokens; subst. apply IH; [|assumption].
    apply wrap_step_shape; assumption.
Qed.

Lemma wrap_init_shape : forall flags, wrap_shape (wrap_init flags).
Proof. intros. split; simpl; auto. Qed.

(** The state the loop is left in: the shape holds, a line is pending, and
    it stands at the length of the text. *)
Lemma wrap_loop_end : forall o text flags,
  let st := fold_left (wrap_step o) (_tokenize text) (wrap_init flags) in
  wrap_shape st /\ ws_line st <> [] /\ ws_line_index st = len text.
Proof.
  intros o text flags.
  destruct (tokenize_from_tokens text text 0 0 None eq_refl ltac:(lia))
    as (Hkind & _ & front & [word wend] & Hfront & _ & Hlast & Hend).
  { rewrite substring_empty. intros []. }
  cbv zeta. unfold _tokenize. rewrite Hfront in *.
  apply Forall_app in Hkind. destruct Hkind as [Hkf _].
  rewrite fold_left_app. cbn [fold_left].
  pose proof (wrap_fold_shape o front (wrap_init flags)
                (wrap_init_shape flags) Hkf) as Hshape.
  simpl in Hlast, Hend.
  destruct (wrap_step_shape o _ word wend Hshape (or_intror Hlast))
    as [Hs Hl].
  destruct (Hl Hlast) as [Hne Hidx].
  exact (conj Hs (conj Hne (eq_trans Hidx Hend))).
Qed.

Lemma nonempty_true : forall (A : Type) (l : list A),
  l <> [] -> nonempty l = true.
Proof. destruct l; [congruence|reflexivity]. Qed.

Lemma last_snoc : forall (l : list Z) (a d : Z), last (l ++ [a]) d = a.
Proof.
  induction l as [|b l IH]; intros a d; [reflexivity|].
  simpl. destruct (l ++ [a]) eqn:E.
  - destruct l; discriminate.
  - rewrite <- E. apply IH.
Qed.

(** What [_split_smart] returns when it wraps. *)
Lemma split_smart_wrapped : forall o text flags lines line_flags indexes,
  wrap_disabled o = false ->
  _split_smart o text flags = (lines, line_flags, indexes) ->
  lines <> []
  /\ length line_flags = length lines
  /\ length indexes = length lines
  /\ last indexes 0 = len text
  /\ Forall (fun line => ~ In nl line) lines.
Proof.
  intros o text flags lines line_flags indexes Hwrap H.
  unfold _split_smart in H. unfold wrap_disabled in Hwrap.
  rewrite Hwrap in H.
  destruct (wrap_loop_end o text flags) as (Hshape & Hline & Hidx).
  set (st := fold_left (wrap_step o) (_tokenize text) (wrap_init flags))
    in *.
  unfold wrap_finish in H. rewrite (nonempty_true _ _ Hline) in H.
  simpl in H. inversion H; subst; clear H.
  destruct Hshape as [Hf Hi Hl Hw].
  split; [destruct (ws_lines st); discriminate|].
  split; [rewrite !length_app, Hf; reflexivity|].
  split; [rewrite !length_app, Hi; reflexivity|].
  split; [rewrite last_snoc; exact Hidx|].
  apply Forall_app. split; [exact Hl|].
  constructor; [|constructor]. apply concat_no_newline. exact Hw.
Qed.

(** What [_split_smart] returns when it does not wrap. *)
Lemma split_smart_unwrapped : forall o text flags lines line_flags indexes,
  wrap_disabled o = true ->
  _split_smart o text flags = (lines, line_flags, indexes) ->
  lines <> []
  /\ length line_flags = length lines
  /\ indexes = []
  /\ Forall (fun line => ~ In nl line) lines.
Proof.
  intros o text flags lines line_flags indexes Hwrap H.
  unfold _split_smart in H. unfold wrap_disabled in Hwrap.
  rewrite Hwrap in H. inversion H; subst; clear H.
  pose proof (split_nl_nonempty text) as Hne.
  split; [exact Hne|].
  split; [|split; [reflexivity|apply split_nl_no_newline]].
  destruct (split_nl text) as [|line rest]; [congruence|].
  simpl. rewrite Nat.sub_0_r, repeat_length. reflexivity.
Qed.

(** X4: [_split_smart] always returns at least one line, with one flag per
    line, whatever the text, the options and the starting flags.  When it
    wraps it also returns one offset per line, the last of them being the
    length of the text; when it does not, it returns no offsets at all. *)
Theorem split_smart_shape : forall o text flags,
  fst (fst (_split_smart o text flags)) <> []
  /\ length (snd (fst (_split_smart o text flags)))
     = length (fst (fst (_split_smart o text flags)))
  /\ if wrap_disabled o
     then snd (_split_smart o text flags) = []
     else length (snd (_split_smart o text flags))
          = length (fst (fst (_split_smart o text flags)))
          /\ last (snd (_split_smart o text flags)) 0 = len text.
Proof.
  intros o text flags.
  destruct (_split_smart o text flags) as [[lines line_flags] indexes] eqn:E.
  simpl. destruct (wrap_disabled o) eqn:Ew.
  - destruct (split_smart_unwrapped _ _ _ _ _ _ Ew E) as (H1 & H2 & H3 & _).
    auto.
  - destruct (split_smart_wrapped _ _ _ _ _ _ Ew E)
      as (H1 & H2 & H3 & H4 & _).
    auto.
Qed.

Lemma count_nl_app : forall a b : str,
  count_nl (a ++ b) = (count_nl a + count_nl b)%nat.
Proof. intros. unfold count_nl. apply count_occ_app. Qed.

Lemma count_nl_none : forall text : str, ~ In nl text -> count_nl text = 0%nat.
Proof. intros text H. unfold count_nl. apply count_occ_not_In. exact H. Qed.

Lemma count_nl_reconstruct : forall lines flags,
  length lines = length flags ->
  Forall (fun line => ~ In nl line) lines ->
  count_nl (reconstruct lines flags) = count_linebreaks flags.
Proof.
  induction lines as [|line lines IH]; intros flags Hlen Hno;
    destruct flags as [|flag flags]; try discriminate; [reflexivity|].
  inversion Hno; subst. simpl.
  rewrite !count_nl_app, (count_nl_none line) by assumption.
  rewrite IH by (simpl in Hlen; congruence || assumption).
  unfold count_linebreaks, pending_nl. simpl.
  destruct (has_flag flag FL_IS_LINEBREAK); reflexivity.
Qed.

(** X5: no line of a reflow contains a newline, and the lines that carry
    the line-break flag are exactly as many as the newlines of the text. *)
Theorem reflow_counts_newlines : forall o text,
  Forall (fun line => ~ In nl line) (_lines (reflowed o text))
  /\ count_linebreaks (_lines_flags (reflowed o text)) = count_nl text.
Proof.
  intros o text.
  pose proof (reflowed_model o text) as [Hlen Htext _].
  assert (Hno : Forall (fun line => ~ In nl line) (_lines (reflowed o text))).
  { unfold reflowed. simpl.
    destruct (_split_smart o text 0) as [[lines line_flags] indexes] eqn:E.
    simpl. destruct (wrap_disabled o) eqn:Ew.
    - apply (split_smart_unwrapped _ _ _ _ _ _ Ew E).
    - apply (split_smart_wrapped _ _ _ _ _ _ Ew E). }
  split; [exact Hno|].
  rewrite <- (count_nl_reconstruct _ _ Hlen Hno), Htext. reflexivity.
Qed.

(** X6: the flags [_split_smart] is started under, when it wraps, become
    the flags of its first line, and the lines read back as the text with a
    newline in front if those flags hold the line-break bit: a tail of a
    text re-wrapped under the flags of its first line reads back as that
    tail, its leading newline included.  Without wrapping the starting
    flags are not looked at. *)
Theorem split_smart_starting_flags : forall o text flags,
  if wrap_disabled o
  then reconstruct (fst (fst (_split_smart o text flags)))
         (snd (fst (_split_smart o text flags))) = text
  else reconstruct (fst (fst (_split_smart o text flags)))
         (snd (fst (_split_smart o text flags)))
       = pending_nl flags ++ text
       /\ hd flags (snd (fst (_split_smart o text flags))) = flags.
Proof.
  intros o text flags. destruct (wrap_disabled o) eqn:Ew.
  - unfold wrap_disabled in Ew. unfold _split_smart. rewrite Ew. simpl.
    destruct (split_nl_joined text) as (line & rest & Hs & Hr).
    rewrite Hs. simpl. rewrite Nat.sub_0_r. exact Hr.
  - unfold wrap_disabled in Ew. unfold _split_smart. rewrite Ew.
    destruct (wrap_fold_text o flags (_tokenize text) (wrap_init flags)
                (wrap_init_inv flags)) as [Hinv Ht].
    destruct (wrap_finish
                (fold_left (wrap_step o) (_tokenize text) (wrap_init flags)))
      as [[lines line_flags] indexes] eqn:E.
    destruct (wrap_finish_model _ _ _ _ _ Hinv E) as (Hl & Hr & Hh).
    simpl. split; [|exact Hh].
    rewrite Hr, Ht, tokenize_concat. unfold wrapped_text. simpl.
    rewrite app_nil_r. reflexivity.
Qed.

(** ** Cursors of a line model *)

Lemma set_cursor_in_bounds : forall st col row line,
  nth_error (_lines st) row = Some line ->
  0 <= col <= len line ->
  _set_cursor (col, Z.of_nat row) st
  = (Ok tt, with_cursor (col, Z.of_nat row) st).
Proof.
  intros st col row line Hl Hcol. unfold _set_cursor.
  rewrite (nth_error_nonempty _ _ _ _ Hl). cbn [negb fst snd].
  pose proof (nth_error_len _ _ _ _ Hl) as Hrow.
  rewrite (boundary_inside (Z.of_nat row)) by lia.
  rewrite (getitem_nat _ _ _ _ Hl).
  rewrite (boundary_inside col) by lia. reflexivity.
Qed.

(** Where [get_cursor_from_index] lands in a line model that has a line:
    on a cursor of the model, whose index is the given one clamped into the
    text. *)
Lemma get_cursor_located : forall st index,
  line_model (_current_text st) (_lines st) (_lines_flags st) ->
  _lines st <> [] ->
  exists col row line,
    get_cursor_from_index st index = Ok (col, Z.of_nat row)
    /\ nth_error (_lines st) row = Some line
    /\ 0 <= col <= len line
    /\ cursor_index st (Some (col, Z.of_nat row))
       = boundary index 0 (len (_current_text st)).
Proof.
  intros st index [Hlen Htext Hhead] Hne.
  pose proof (len_nonneg _ (_current_text st)) as Hnn.
  pose proof (boundary_range index 0 _ Hnn) as Hb.
  unfold get_cursor_from_index.
  set (clamped := boundary index 0 (len (_current_text st))) in *.
  destruct (_lines st) as [|l ls] eqn:El; [congruence|].
  destruct (_lines_flags st) as [|f fs] eqn:Ef; [discriminate|].
  assert (Hl0 : nth_error (_lines st) 0 = Some l) by (rewrite El; auto).
  assert (Hf0 : nth_error (_lines_flags st) 0 = Some f)
    by (rewrite Ef; auto).
  destruct (clamped <=? 0) eqn:E0.
  - apply Z.leb_le in E0. exists 0, 0%nat, l.
    split; [reflexivity|]. rewrite <- El. split; [exact Hl0|].
    split; [pose proof (len_nonneg _ l); lia|].
    rewrite (cursor_index_row st 0 0%nat l f Hl0 Hf0), preceding_total_0.
    simpl in Hhead. unfold linebreak_bit. rewrite Hhead. lia.
  - apply Z.leb_gt in E0. cbn [nonempty negb].
    pose proof (len_reconstruct _ _ Hlen) as Htotal.
    rewrite Htext in Htotal. rewrite <- El, <- Ef in *.
    destruct (cursor_from_index_loop_finds (_lines st) (_lines_flags st)
                Hlen clamped (_lines st) 0 eq_refl)
      as (row & col & line & flag & Hloop & Hl & Hf & Hi & Hcol).
    + rewrite preceding_total_0. exact E0.
    + lia.
    + rewrite preceding_total_0 in Hloop.
      change (Z.of_nat 0) with 0 in Hloop.
      exists col, row, line. split; [exact Hloop|].
      split; [exact Hl|]. split; [exact Hcol|].
      rewrite (cursor_index_row st col row line flag Hl Hf). lia.
Qed.

Lemma reflowed_nonempty : forall o text, _lines (reflowed o text) <> [].
Proof.
  intros o text. unfold reflowed. simpl.
  destruct (_split_smart o text 0) as [[lines line_flags] indexes] eqn:E.
  simpl. destruct (wrap_disabled o) eqn:Ew.
  - apply (split_smart_unwrapped _ _ _ _ _ _ Ew E).
  - apply (split_smart_wrapped _ _ _ _ _ _ Ew E).
Qed.

(** X7: in the widget of any reflow, [get_cursor_from_index] answers every
    integer, in range or not, with a cursor that lies inside the lines, so
    that the cursor setter stores it exactly as it is. *)
Theorem get_cursor_from_index_in_bounds : forall o text index,
  exists col row,
    get_cursor_from_index (reflowed o text) index = Ok (col, Z.of_nat row)
    /\ in_bounds (reflowed o text) col row
    /\ _set_cursor (col, Z.of_nat row) (reflowed o text)
       = (Ok tt, with_cursor (col, Z.of_nat row) (reflowed o text)).
Proof.
  intros o text index.
  destruct (get_cursor_located (reflowed o text) index
              (reflowed_model o text) (reflowed_nonempty o text))
    as (col & row & line & Hget & Hl & Hcol & _).
  exists col, row. split; [exact Hget|].
  split; [exists line; auto|].
  apply set_cursor_in_bounds with (line := line); assumption.
Qed.

(** The order of the flat indices of two cursors of a model whose lines
    have a flag each. *)
Lemma cursor_index_order : forall st col1 row1 line1 col2 row2 line2,
  length (_lines st) = length (_lines_flags st) ->
  nth_error (_lines st) row1 = Some line1 -> 0 <= col1 <= len line1 ->
  nth_error (_lines st) row2 = Some line2 -> 0 <= col2 <= len line2 ->
  (row1 < row2)%nat \/ (row1 = row2 /\ col1 <= col2) ->
  0 <= cursor_index st (Some (col1, Z.of_nat row1))
  /\ cursor_index st (Some (col1, Z.of_nat row1))
     <= cursor_index st (Some (col2, Z.of_nat row2))
  /\ cursor_index st (Some (col2, Z.of_nat row2))
     <= len (reconstruct (_lines st) (_lines_flags st)).
Proof.
  intros st col1 row1 line1 col2 row2 line2 Hlen Hl1 Hc1 Hl2 Hc2 Horder.
  destruct (nth_error_same_length _ _ _ _ _ _ Hlen Hl1) as [f1 Hf1].
  destruct (nth_error_same_length _ _ _ _ _ _ Hlen Hl2) as [f2 Hf2].
  rewrite (cursor_index_row st col1 row1 line1 f1 Hl1 Hf1).
  rewrite (cursor_index_row st col2 row2 line2 f2 Hl2 Hf2).
  pose proof (preceding_total_nonneg (_lines st) (_lines_flags st) row1).
  pose proof (linebreak_bit_range f1). pose proof (linebreak_bit_range f2).
  pose proof (preceding_total_S _ _ _ _ _ Hl1 Hf1) as HS1.
  pose proof (preceding_total_S _ _ _ _ _ Hl2 Hf2) as HS2.
  assert (Hrow2 : (row2 < length (_lines st))%nat)
    by (apply nth_error_Some; congruence).
  pose proof (preceding_total_mono (_lines st) (_lines_flags st) (S row2)
                (length (_lines st)) ltac:(lia)) as Hall.
  pose proof (len_reconstruct _ _ Hlen) as Htotal.
  split; [lia|]. split; [|lia].
  destruct Horder as [Hlt|[Heq Hle]].
  - pose proof (preceding_total_mono (_lines st) (_lines_flags st) (S row1)
                  row2 ltac:(lia)).
    lia.
  - subst row2.
    assert (line1 = line2) by congruence.
    assert (f1 = f2) by congruence.
    subst line2 f2. lia.
Qed.

(** X8: in the widget of any reflow the flat index grows with the cursor in
    reading order: a cursor on an earlier row, or on the same row at a
    column not further right, never has the larger index; and the index of
    a cursor inside the lines lies in [0, len(text)]. *)
Theorem cursor_index_monotone : forall o text col1 row1 col2 row2,
  in_bounds (reflowed o text) col1 row1 ->
  in_bounds (reflowed o text) col2 row2 ->
  (row1 < row2)%nat \/ (row1 = row2 /\ col1 <= col2) ->
  0 <= cursor_index (reflowed o text) (Some (col1, Z.of_nat row1))
  /\ cursor_index (reflowed o text) (Some (col1, Z.of_nat row1))
     <= cursor_index (reflowed o text) (Some (col2, Z.of_nat row2))
  /\ cursor_index (reflowed o text) (Some (col2, Z.of_nat row2))
     <= len text.
Proof.
  intros o text col1 row1 col2 row2 (line1 & Hl1 & Hc1) (line2 & Hl2 & Hc2)
    Horder.
  destruct (reflowed_model o text) as [Hlen Htext _].
  pose proof (cursor_index_order _ _ _ _ _ _ _ Hlen Hl1 Hc1 Hl2 Hc2 Horder)
    as Ho.
  rewrite Htext in Ho. exact Ho.
Qed.

Lemma cursor_index_monotone_witness :
  in_bounds (reflowed (wrap_at 3) two_paragraphs) 3 1
  /\ in_bounds (reflowed (wrap_at 3) two_paragraphs) 0 2
  /\ cursor_index (reflowed (wrap_at 3) two_paragraphs)
       (Some (3, Z.of_nat 1))
     <= cursor_index (reflowed (wrap_at 3) two_paragraphs)
          (Some (0, Z.of_nat 2)).
Proof.
  assert (H1 : in_bounds (reflowed (wrap_at 3) two_paragraphs) 3 1).
  { exists (s "bb "). vm_compute. repeat split; discriminate. }
  assert (H2 : in_bounds (reflowed (wrap_at 3) two_paragraphs) 0 2).
  { exists (s "cc"). vm_compute. repeat split; discriminate. }
  split; [exact H1|]. split; [exact H2|].
  apply (cursor_index_monotone (wrap_at 3) two_paragraphs 3 1 0 2 H1 H2).
  left. repeat constructor.
Defined.

(** X9: [cursor_index] swallows the [IndexError] of a row that has no flag:
    for a row at or past the number of flags, or further below zero than
    their number, the answer is 0 whatever the column and the lines. *)
Theorem cursor_index_without_flag : forall st col row,
  row < - len (_lines_flags st) \/ len (_lines_flags st) <= row ->
  cursor_index st (Some (col, row)) = 0.
Proof.
  intros st col row Hrow. unfold cursor_index.
  destruct (negb (nonempty (_lines st))); [reflexivity|].
  unfold getitem.
  replace ((row <? - len (_lines_flags st))
           || (len (_lines_flags st) <=? row)) with true; [reflexivity|].
  symmetry. apply orb_true_iff.
  destruct Hrow; [left; apply Z.ltb_lt|right; apply Z.leb_le]; assumption.
Qed.

Lemma cursor_index_without_flag_witness :
  cursor_index (reflowed (wrap_at 3) two_paragraphs) (Some (2, 4)) = 0.
Proof.
  apply (cursor_index_without_flag (reflowed (wrap_at 3) two_paragraphs)).
  right. vm_compute. discriminate.
Defined.

(** ** Refreshing and replacing *)

Lemma bind_ok : forall (A B : Type) (m : M A) (k : A -> M B) st a st',
  m st = (Ok a, st') -> bind m k st = k a st'.
Proof. intros A B m k st a st' H. unfold bind. rewrite H. reflexivity. Qed.

Lemma cursor_index_own : forall st,
  cursor_index st None = cursor_index st (Some (_cursor st)).
Proof. reflexivity. Qed.

(** X10: a refresh from the property always succeeds and lays the current
    text out from scratch; the cursor it leaves lies inside the new lines,
    and its flat index is the one the cursor had before, clamped into the
    text.  The text itself is untouched and becomes the rendered text. *)
Theorem refresh_from_property_keeps_index : forall o get_opcodes st,
  exists st',
    _refresh_text_from_property o get_opcodes st = (Ok tt, st')
    /\ _current_text st' = _current_text st
    /\ _rendered_text st' = _current_text st
    /\ (_lines st', _lines_flags st', _lines_indexes st')
       = _split_smart o (_current_text st) 0
    /\ 0 <= snd (_cursor st')
    /\ in_bounds st' (fst (_cursor st')) (Z.to_nat (snd (_cursor st')))
    /\ cursor_index st' None
       = boundary (cursor_index st None) 0 (len (_current_text st)).
Proof.
  intros o get_opcodes st.
  unfold _refresh_text_from_property, _refresh_text.
  set (text := _current_text st).
  set (before := cursor_index st None).
  erewrite bind_ok by reflexivity. fold before.
  set (st1 := with_model (_lines (reflowed o text))
                (_lines_flags (reflowed o text))
                (_lines_indexes (reflowed o text)) st).
  assert (Hstep : refresh_lines_property o text st = (Ok tt, st1)).
  { unfold refresh_lines_property, write, st1, reflowed. simpl.
    destruct (_split_smart o text 0) as [[lines line_flags] indexes].
    reflexivity. }
  erewrite bind_ok by exact Hstep.
  erewrite bind_ok by reflexivity.
  assert (Hmodel : line_model (_current_text st1) (_lines st1)
                     (_lines_flags st1)) by apply (reflowed_model o text).
  assert (Hne : _lines st1 <> []) by apply (reflowed_nonempty o text).
  destruct (get_cursor_located st1 before Hmodel Hne)
    as (col & row & line & Hget & Hl & Hcol & Hindex).
  erewrite bind_ok by (unfold read; rewrite Hget; reflexivity).
  erewrite bind_ok
    by exact (set_cursor_in_bounds st1 col row line Hl Hcol).
  set (st2 := with_cursor (col, Z.of_nat row) st1).
  set (st3 := if snd (_cursor st2) =? snd (_cursor st) then st2
              else with_scroll_x 0 st2).
  erewrite bind_ok by reflexivity.
  exists (with_rendered_text text st3).
  split; [reflexivity|].
  assert (Hsame : _current_text st3 = text
                  /\ _lines st3 = _lines st1
                  /\ _lines_flags st3 = _lines_flags st1
                  /\ _lines_indexes st3 = _lines_indexes st1
                  /\ _cursor st3 = (col, Z.of_nat row)).
  { unfold st3. destruct (snd (_cursor st2) =? snd (_cursor st));
      repeat split; reflexivity. }
  destruct Hsame as (H1 & H2 & H3 & H4 & H5).
  cbn [_current_text _rendered_text _lines _lines_flags _lines_indexes
       _cursor with_rendered_text].
  rewrite H5. cbn [fst snd].
  split; [exact H1|]. split; [reflexivity|].
  split.
  { rewrite H2, H3, H4. unfold st1, reflowed. simpl.
    destruct (_split_smart o text 0) as [[lines line_flags] indexes].
    reflexivity. }
  split; [lia|]. split.
  { exists line. rewrite Nat2Z.id. unfold in_bounds.
    cbn [_lines with_rendered_text]. rewrite H2. auto. }
  change (len text) with (len (_current_text st1)).
  rewrite <- Hindex. unfold cursor_index.
  cbn [_cursor _lines _lines_flags with_rendered_text].
  rewrite H2, H3, H5. reflexivity.
Qed.

Lemma slice_prefix : forall (A : Type) (l : list A) (i : Z),
  0 <= i <= len l -> slice l None (Some i) = firstn (Z.to_nat i) l.
Proof.
  intros A l i H. unfold slice, slice_bound, substring.
  replace (i <? 0) with false by (symmetry; apply Z.ltb_ge; lia).
  rewrite Z.min_l by lia. simpl. rewrite Nat.sub_0_r. reflexivity.
Qed.

Lemma slice_suffix : forall (A : Type) (l : list A) (i : Z),
  0 <= i <= len l -> slice l (Some i) None = skipn (Z.to_nat i) l.
Proof.
  intros A l i H. unfold slice, slice_bound, substring.
  replace (i <? 0) with false by (symmetry; apply Z.ltb_ge; lia).
  rewrite Z.min_l by lia. apply firstn_all2.
  rewrite length_skipn. unfold len. lia.
Qed.

(** What [_refresh_text] and the cursor setter leave alone. *)
Lemma set_cursor_text : forall pos st,
  _current_text (snd (_set_cursor pos st)) = _current_text st.
Proof.
  intros pos st. unfold _set_cursor.
  destruct (negb (nonempty (_lines st))); [reflexivity|].
  destruct (getitem _ _); reflexivity.
Qed.

Lemma bind_text : forall (A B : Type) (m : M A) (k : A -> M B),
  (forall st, _current_text (snd (m st)) = _current_text st) ->
  (forall a st, _current_text (snd (k a st)) = _current_text st) ->
  forall st, _current_text (snd (bind m k st)) = _current_text st.
Proof.
  intros A B m k Hm Hk st. unfold bind.
  specialize (Hm st). destruct (m st) as [[a|e] st1]; simpl in *.
  - rewrite Hk. exact Hm.
  - exact Hm.
Qed.

Lemma refresh_text_text : forall o get_opcodes text req st,
  _current_text (snd (_refresh_text o get_opcodes text req st))
  = _current_text st.
Proof.
  intros o get_opcodes text req. unfold _refresh_text.
  apply bind_text; [reflexivity|]. intros before.
  apply bind_text.
  { destruct req.
    - unfold refresh_lines_textinput. apply bind_text; [reflexivity|].
      intros [[r start] flags] st.
      destruct (_split_smart o _ flags) as [[lines line_flags] indexes].
      reflexivity.
    - intros st. unfold refresh_lines_property, write. simpl.
      destruct (_split_smart o text 0) as [[lines line_flags] indexes].
      reflexivity. }
  intros _. apply bind_text; [reflexivity|]. intros previous.
  apply bind_text; [reflexivity|]. intros cursor.
  apply bind_text; [apply set_cursor_text|]. intros _.
  apply bind_text.
  { intros st. unfold write. simpl.
    destruct (snd (_cursor st) =? previous); reflexivity. }
  intros _ st. reflexivity.
Qed.

(** X11: for [0 <= start_index <= end_index <= len(text)], [replace_text]
    builds the text before [start_index], then the substring, then the text
    from [end_index] on; its length is the old one, less the replaced
    range, plus the substring.  Whatever happens afterwards, even if the
    refresh raises, that text is the widget's current text. *)
Theorem replace_text_in_range : forall o get_opcodes substring start_index
  end_index move_cursor_at_end st,
  0 <= start_index <= end_index ->
  end_index <= len (_current_text st) ->
  replaced_text (_current_text st) substring start_index end_index
  = firstn (Z.to_nat start_index) (_current_text st)
    ++ substring ++ skipn (Z.to_nat end_index) (_current_text st)
  /\ len (replaced_text (_current_text st) substring start_index end_index)
     = len (_current_text st) - (end_index - start_index) + len substring
  /\ _current_text
       (snd (replace_text o get_opcodes substring (Some start_index)
               (Some end_index) move_cursor_at_end st))
     = replaced_text (_current_text st) substring start_index end_index.
Proof.
  intros o get_opcodes substring start_index end_index move st Hse Hend.
  assert (Hshape : replaced_text (_current_text st) substring start_index
                     end_index
                   = firstn (Z.to_nat start_index) (_current_text st)
                     ++ substring
                     ++ skipn (Z.to_nat end_index) (_current_text st)).
  { unfold replaced_text.
    rewrite slice_prefix by lia.
    replace (start_index + Z.abs (start_index - end_index))
      with end_index by lia.
    rewrite slice_suffix by lia. reflexivity. }
  split; [exact Hshape|]. split.
  - rewrite Hshape, !len_app. unfold len in *.
    rewrite length_firstn, length_skipn. lia.
  - unfold replace_text.
    destruct (str_eqb (_current_text st)
                (replaced_text (_current_text st) substring start_index
                   end_index)) eqn:E.
    + apply str_eqb_eq in E. simpl. exact E.
    + set (new_text := replaced_text (_current_text st) substring
                         start_index end_index).
      unfold bind at 1. unfold write at 1. cbv beta iota.
      rewrite bind_text; [reflexivity| |].
      * apply refresh_text_text.
      * intros _. apply bind_text.
        -- destruct move.
           ++ apply bind_text; [reflexivity|]. intros cursor.
              apply set_cursor_text.
           ++ reflexivity.
        -- reflexivity.
Qed.

Lemma replace_text_in_range_witness :
  _current_text
    (snd (replace_text no_wrap opcodes_disjoint (s "XY") (Some 2) (Some 4)
            true (reflowed no_wrap (s "abcdef"))))
  = replaced_text (_current_text (reflowed no_wrap (s "abcdef"))) (s "XY")
      2 4.
Proof.
  apply (replace_text_in_range no_wrap opcodes_disjoint (s "XY") 2 4 true
           (reflowed no_wrap (s "abcdef"))).
  - lia.
  - vm_compute. discriminate.
Defined.

(** ** Selections *)

(** X12: in a widget whose lines all have their flag, [select_all] does
    not raise (the drawing on the canvas apart, which the model leaves
    out): it selects from 0 to the length of the text, finished, and the
    widget counts that as a selection exactly when the text is not empty.
    Text and cursor stay as they are. *)
Theorem select_all_selects_text : forall st,
  (length (_lines st) <= length (_lines_flags st))%nat ->
  exists st',
    select_all st = (Ok RNone, st')
    /\ _selection_from st' = Some 0
    /\ _selection_to st' = Some (len (_current_text st))
    /\ _selection_finished st' = true
    /\ _selection st' = nonempty (_current_text st)
    /\ _current_text st' = _current_text st
    /\ _cursor st' = _cursor st.
Proof.
  intros st Hlen. unfold select_all.
  pose proof (len_nonneg _ (_current_text st)) as Hnn.
  rewrite select_text_ordered by exact Hnn.
  rewrite !boundary_inside by lia. rewrite Z.sub_0_r.
  unfold bind. rewrite update_graphics_selection_ok.
  - eexists. split; [reflexivity|]. cbn.
    repeat split.
    destruct (_current_text st) as [|c text]; [reflexivity|].
    unfold len. simpl length.
    destruct (Z.of_nat (S (length text)) =? 0) eqn:E;
      [apply Z.eqb_eq in E; lia|reflexivity].
  - right. cbn. split; [exact Hlen|]. split; discriminate.
Qed.

Lemma select_all_selects_text_witness :
  exists st',
    select_all (reflowed (wrap_at 3) two_paragraphs) = (Ok RNone, st')
    /\ _selection_to st' = Some 11
    /\ _selection st' = true.
Proof.
  destruct (select_all_selects_text (reflowed (wrap_at 3) two_paragraphs))
    as (st' & H & _ & Hto & _ & Hsel & _).
  - vm_compute. repeat constructor.
  - exists st'. split; [exact H|]. split; [exact Hto|exact Hsel].
Defined.

(** X22: the cursor setter takes every (col, row) pair in every widget and
    never raises.  The lines stay as they are, and when there is a line at
    all the cursor it leaves has its row clamped into [0, len(lines)-1] and
    its column into [0, len(lines[row])], so that 0 <= row < len(lines) and
    0 <= col <= len(lines[row]).  With no line the cursor is not touched. *)
Theorem set_cursor_clamps_position : forall st pos,
  exists st',
    _set_cursor pos st = (Ok tt, st')
    /\ _lines st' = _lines st
    /\ (_lines st = [] -> st' = st)
    /\ (_lines st <> [] ->
        exists line,
          snd (_cursor st') = boundary (snd pos) 0 (len (_lines st) - 1)
          /\ nth_error (_lines st') (Z.to_nat (snd (_cursor st')))
             = Some line
          /\ fst (_cursor st') = boundary (fst pos) 0 (len line)
          /\ 0 <= snd (_cursor st') < len (_lines st')
          /\ 0 <= fst (_cursor st') <= len line).
Proof.
  intros st pos. unfold _set_cursor.
  destruct (_lines st) as [|l ls] eqn:El; cbn [nonempty negb].
  - exists st. split; [reflexivity|]. split; [exact El|].
    split; [reflexivity|congruence].
  - assert (Hrange : 0 <= boundary (snd pos) 0 (len (l :: ls) - 1)
                     < len (l :: ls)).
    { pose proof (boundary_range (snd pos) 0 (len (l :: ls) - 1)) as Hb.
      unfold len in *. simpl length in *. lia. }
    destruct (getitem_in_range _ _ _ Hrange) as (line & Hget & Hnth).
    rewrite Hget.
    eexists. split; [reflexivity|].
    cbn [_lines _cursor with_cursor fst snd]. split; [exact El|].
    split; [discriminate|].
    intros _. exists line. rewrite El.
    pose proof (boundary_range (fst pos) 0 (len line) (len_nonneg _ line))
      as Hcol.
    split; [reflexivity|]. split; [exact Hnth|]. split; [reflexivity|].
    split; [exact Hrange|exact Hcol].
Qed.

(** X23: [select_text(start, end)] with [end < start] raises its exception
    and leaves the widget as it was.  With [start <= end] it stores both
    ends, each clamped on its own into [0, len(text)], marks the selection
    finished and counts it as a selection when the clamped ends differ,
    whatever happens afterwards; text, lines, flags and cursor stay as they
    are.  It returns [None] when the clamped ends are equal or every line
    has its flag (the drawing on the canvas apart, which the model leaves
    out). *)
Theorem select_text_stores_clamped_range : forall st start end_,
  (end_ < start ->
   select_text start end_ st
   = (Raise (Exception "end must be superior to start"), st))
  /\ (start <= end_ ->
      exists st',
        snd (select_text start end_ st) = st'
        /\ _selection_from st'
           = Some (boundary start 0 (len (_current_text st)))
        /\ _selection_to st'
           = Some (boundary end_ 0 (len (_current_text st)))
        /\ _selection_finished st' = true
        /\ _selection st'
           = negb (boundary end_ 0 (len (_current_text st))
                   =? boundary start 0 (len (_current_text st)))
        /\ 0 <= boundary start 0 (len (_current_text st))
             <= boundary end_ 0 (len (_current_text st))
        /\ boundary end_ 0 (len (_current_text st))
           <= len (_current_text st)
        /\ _current_text st' = _current_text st
        /\ _lines st' = _lines st
        /\ _lines_flags st' = _lines_flags st
        /\ _cursor st' = _cursor st
        /\ (boundary start 0 (len (_current_text st))
            = boundary end_ 0 (len (_current_text st))
            \/ (length (_lines st) <= length (_lines_flags st))%nat ->
            select_text start end_ st = (Ok RNone, st'))).
Proof.
  intros st start end_.
  pose proof (len_nonneg _ (_current_text st)) as Htext.
  split; [apply select_text_reversed|]. intros H.
  rewrite select_text_ordered by exact H.
  set (a := boundary start 0 (len (_current_text st))).
  set (b := boundary end_ 0 (len (_current_text st))).
  set (st1 := with_selection a b true (negb (b - a =? 0)) st).
  pose proof (boundary_mono start end_ 0 (len (_current_text st)) H) as Hm.
  pose proof (boundary_range start 0 _ Htext) as Ha.
  pose proof (boundary_range end_ 0 _ Htext) as Hb.
  fold a in Hm, Ha. fold b in Hm, Hb.
  assert (Hsnd : snd ((_update_graphics_selection ;;; ret RNone) st1) = st1).
  { unfold bind. pose proof (update_graphics_selection_state st1) as Hs.
    destruct (_update_graphics_selection st1) as [[u|e] st2];
      simpl in Hs; subst st2; reflexivity. }
  exists st1. split; [exact Hsnd|].
  split; [reflexivity|]. split; [reflexivity|]. split; [reflexivity|].
  split.
  { unfold st1. cbn [_selection with_selection]. f_equal.
    destruct (b - a =? 0) eqn:E1; destruct (b =? a) eqn:E2; try reflexivity.
    - apply Z.eqb_eq in E1. apply Z.eqb_neq in E2. lia.
    - apply Z.eqb_neq in E1. apply Z.eqb_eq in E2. lia. }
  split; [lia|]. split; [lia|].
  split; [reflexivity|]. split; [reflexivity|]. split; [reflexivity|].
  split; [reflexivity|].
  intros Hok. unfold bind. rewrite update_graphics_selection_ok;
    [reflexivity|].
  destruct Hok as [Heq|Hlen].
  - left. unfold st1. cbn [_selection with_selection].
    rewrite Heq, Z.sub_diag. reflexivity.
  - right. unfold st1. cbn [_lines _lines_flags _selection_from
                            _selection_to with_selection].
    split; [exact Hlen|]. split; discriminate.
Qed.

Lemma select_text_stores_clamped_range_witness :
  select_text 5 2 (reflowed no_wrap (s "abcdef"))
  = (Raise (Exception "end must be superior to start"),
     reflowed no_wrap (s "abcdef"))
  /\ exists st',
       select_text (-3) 40 (reflowed no_wrap (s "abcdef")) = (Ok RNone, st')
       /\ _selection_from st' = Some 0
       /\ _selection_to st' = Some 6.
Proof.
  split.
  - apply (proj1 (select_text_stores_clamped_range
                    (reflowed no_wrap (s "abcdef")) 5 2)). lia.
  - destruct (proj2 (select_text_stores_clamped_range
                       (reflowed no_wrap (s "abcdef")) (-3) 40) ltac:(lia))
      as (st' & _ & Hfrom & Hto & _ & _ & _ & _ & _ & _ & _ & _ & Hok).
    exists st'. split; [|split; [exact Hfrom|exact Hto]].
    apply Hok. right. vm_compute. repeat constructor.
Defined.

(** X13: when the core text input reports an empty selection at an index,
    in the widget of any reflow, the selection is stored empty and
    finished at the clamped index and the cursor is placed there: its flat
    index becomes the reported one clamped into the text. *)
Theorem selection_changed_places_cursor : forall o text index,
  exists st',
    _handle_coretextinput_selection_changed index index (reflowed o text)
    = (Ok tt, st')
    /\ _selection_from st' = Some (boundary index 0 (len text))
    /\ _selection_to st' = Some (boundary index 0 (len text))
    /\ _selection st' = false
    /\ _selection_finished st' = true
    /\ cursor_index st' None = boundary index 0 (len text).
Proof.
  intros o text index.
  unfold _handle_coretextinput_selection_changed.
  set (clamped := boundary index 0 (len text)).
  set (st1 := with_selection clamped clamped true false (reflowed o text)).
  assert (Hsel : select_text index index (reflowed o text)
                 = (Ok RNone, st1)).
  { unfold select_text.
    replace (index <? index) with false
      by (symmetry; apply Z.ltb_ge; lia).
    unfold st1, clamped. cbn [_current_text reflowed].
    replace (boundary index 0 (len text) >? boundary index 0 (len text))
      with false by (symmetry; rewrite Z.gtb_ltb; apply Z.ltb_irrefl).
    rewrite Z.sub_diag. reflexivity. }
  erewrite bind_ok by exact Hsel. rewrite Z.eqb_refl.
  assert (Hmodel : line_model (_current_text st1) (_lines st1)
                     (_lines_flags st1)) by apply (reflowed_model o text).
  assert (Hne : _lines st1 <> []) by apply (reflowed_nonempty o text).
  destruct (get_cursor_located st1 index Hmodel Hne)
    as (col & row & line & Hget & Hl & Hcol & Hindex).
  erewrite bind_ok by (unfold read; rewrite Hget; reflexivity).
  rewrite (set_cursor_in_bounds st1 col row line Hl Hcol).
  eexists. split; [reflexivity|].
  repeat split. exact Hindex.
Qed.

(** ** Selecting the word at the cursor *)

Lemma find_char_spec : forall (text : str) (c : ascii),
  (find_char text c = -1 /\ ~ In c text)
  \/ exists k : nat,
       find_char text c = Z.of_nat k
       /\ nth_error text k = Some c
       /\ ~ In c (firstn k text).
Proof.
  induction text as [|d text IH]; intros c; simpl.
  - left. split; [reflexivity|intros []].
  - destruct (Ascii.eqb d c) eqn:E.
    + apply Ascii.eqb_eq in E. subst d. right. exists 0%nat.
      repeat split. intros [].
    + apply Ascii.eqb_neq in E.
      destruct (IH c) as [[Hf Hno]|(k & Hf & Hk & Hno)]; rewrite Hf.
      * left. split; [reflexivity|]. intros [H|H]; [congruence|contradiction].
      * right. exists (S k).
        replace (Z.of_nat k <? 0) with false
          by (symmetry; apply Z.ltb_ge; lia).
        split; [lia|]. split; [exact Hk|].
        simpl. intros [H|H]; [congruence|contradiction].
Qed.

Lemma rfind_from_spec : forall (text : str) (c : ascii) (i found : Z),
  (rfind_from text c i found = found /\ ~ In c text)
  \/ exists k : nat,
       rfind_from text c i found = i + Z.of_nat k
       /\ nth_error text k = Some c
       /\ ~ In c (skipn (S k) text).
Proof.
  induction text as [|d text IH]; intros c i found; simpl.
  - left. split; [reflexivity|intros []].
  - destruct (Ascii.eqb d c) eqn:E.
    + apply Ascii.eqb_eq in E. subst d.
      destruct (IH c (i + 1) i) as [[Hf Hno]|(k & Hf & Hk & Hno)].
      * right. exists 0%nat. rewrite Hf. split; [lia|].
        split; [reflexivity|exact Hno].
      * right. exists (S k). rewrite Hf. split; [lia|].
        split; [exact Hk|exact Hno].
    + apply Ascii.eqb_neq in E.
      destruct (IH c (i + 1) found) as [[Hf Hno]|(k & Hf & Hk & Hno)].
      * left. split; [exact Hf|].
        intros [H|H]; [congruence|contradiction].
      * right. exists (S k). rewrite Hf. split; [lia|].
        split; [exact Hk|exact Hno].
Qed.

Lemma rfind_char_spec : forall (text : str) (c : ascii),
  (rfind_char text c = -1 /\ ~ In c text)
  \/ exists k : nat,
       rfind_char text c = Z.of_nat k
       /\ nth_error text k = Some c
       /\ ~ In c (skipn (S k) text).
Proof.
  intros text c. unfold rfind_char.
  destruct (rfind_from_spec text c 0 (-1)) as [H|(k & Hf & H)].
  - left. exact H.
  - right. exists k. rewrite Hf. split; [lia|exact H].
Qed.

Lemma fold_max_spec : forall (values : list Z) (v : Z),
  In (fold_left Z.max values v) (v :: values)
  /\ forall x, In x (v :: values) -> x <= fold_left Z.max values v.
Proof.
  induction values as [|w values IH]; intros v; simpl.
  - split; [left; reflexivity|]. intros x [->|[]]. lia.
  - destruct (IH (Z.max v w)) as [Hin Hle]. split.
    + destruct Hin as [Hin|Hin]; [|right; right; exact Hin].
      destruct (Z.max_spec v w) as [[_ Hm]|[_ Hm]].
      * right. left. congruence.
      * left. congruence.
    + intros x [->|[->|Hx]].
      * specialize (Hle (Z.max x w) (or_introl eq_refl)). lia.
      * specialize (Hle (Z.max v x) (or_introl eq_refl)). lia.
      * apply Hle. right. exact Hx.
Qed.

Lemma fold_min_spec : forall (values : list Z) (v : Z),
  In (fold_left Z.min values v) (v :: values)
  /\ forall x, In x (v :: values) -> fold_left Z.min values v <= x.
Proof.
  induction values as [|w values IH]; intros v; simpl.
  - split; [left; reflexivity|]. intros x [->|[]]. lia.
  - destruct (IH (Z.min v w)) as [Hin Hle]. split.
    + destruct Hin as [Hin|Hin]; [|right; right; exact Hin].
      destruct (Z.min_spec v w) as [[_ Hm]|[_ Hm]].
      * left. congruence.
      * right. left. congruence.
    + intros x [->|[->|Hx]].
      * specialize (Hle (Z.min x w) (or_introl eq_refl)). lia.
      * specialize (Hle (Z.min v x) (or_introl eq_refl)). lia.
      * apply Hle. right. exact Hx.
Qed.

Lemma max_of_spec : forall values : list Z,
  values <> [] ->
  exists m, max_of values = Ok m
            /\ In m values /\ forall x, In x values -> x <= m.
Proof.
  intros [|v values] H; [congruence|].
  exists (fold_left Z.max values v). split; [reflexivity|].
  apply fold_max_spec.
Qed.

Lemma min_of_spec : forall values : list Z,
  values <> [] ->
  exists m, min_of values = Ok m
            /\ In m values /\ forall x, In x values -> m <= x.
Proof.
  intros [|v values] H; [congruence|].
  exists (fold_left Z.min values v). split; [reflexivity|].
  apply fold_min_spec.
Qed.

Lemma skipn_incl : forall (A : Type) (a b : nat) (l : list A) (x : A),
  (a <= b)%nat -> In x (skipn b l) -> In x (skipn a l).
Proof.
  intros A a b l x H Hin.
  replace b with ((b - a) + a)%nat in Hin by lia.
  rewrite <- skipn_skipn in Hin.
  rewrite <- (firstn_skipn (b - a) (skipn a l)).
  apply in_or_app. right. exact Hin.
Qed.

Lemma firstn_incl : forall (A : Type) (a b : nat) (l : list A) (x : A),
  (a <= b)%nat -> In x (firstn a l) -> In x (firstn b l).
Proof.
  intros A a b l x H Hin.
  rewrite <- (firstn_skipn a (firstn b l)).
  rewrite firstn_firstn. replace (Nat.min a b) with a by lia.
  apply in_or_app. left. exact Hin.
Qed.

(** The delimiter furthest right in a text, as the maximum of the [rfind]s
    gives it. *)
Lemma last_delimiter_spec : forall (text delimiters : str),
  delimiters <> [] ->
  exists m,
    max_of (map (rfind_char text) delimiters) = Ok m
    /\ -1 <= m < len text
    /\ (forall c, In c (skipn (Z.to_nat (m + 1)) text) ->
                  ~ In c delimiters)
    /\ (m = -1
        \/ exists d, nth_error text (Z.to_nat m) = Some d
                     /\ In d delimiters).
Proof.
  intros text delimiters Hne.
  destruct (max_of_spec (map (rfind_char text) delimiters))
    as (m & Hm & Hin & Hmax).
  { destruct delimiters; [congruence|discriminate]. }
  exists m. split; [exact Hm|].
  apply in_map_iff in Hin. destruct Hin as (d & Hd & Hind).
  assert (Hattained : (m = -1)
            \/ exists k : nat, m = Z.of_nat k
                               /\ nth_error text k = Some d).
  { destruct (rfind_char_spec text d) as [[Hf _]|(k & Hf & Hk & _)].
    - left. congruence.
    - right. exists k. split; [congruence|exact Hk]. }
  split; [|split].
  - destruct Hattained as [->|(k & -> & Hk)].
    + pose proof (len_nonneg _ text). lia.
    + pose proof (nth_error_len _ _ _ _ Hk). lia.
  - intros c Hc Hdel.
    assert (Hle : rfind_char text c <= m).
    { apply Hmax. apply in_map. exact Hdel. }
    destruct (rfind_char_spec text c) as [[_ Hno]|(k & Hf & _ & Hno)].
    + apply Hno. apply skipn_incl with (a := 0%nat) in Hc; [exact Hc|lia].
    + apply Hno. apply skipn_incl with (a := S k) in Hc; [exact Hc|lia].
  - destruct Hattained as [->|(k & -> & Hk)]; [left; reflexivity|].
    right. exists d. rewrite Nat2Z.id. auto.
Qed.

(** The delimiter furthest left in a text, as the minimum of the [find]s
    gives it, the length of the text standing for "none". *)
Lemma first_delimiter_spec : forall (text delimiters : str) (none : Z),
  delimiters <> [] -> none = len text ->
  exists m,
    min_of (map (fun c => if find_char text c >? -1
                          then find_char text c else none) delimiters)
    = Ok m
    /\ 0 <= m <= len text
    /\ (forall c, In c (firstn (Z.to_nat m) text) -> ~ In c delimiters)
    /\ (m = len text
        \/ exists d, nth_error text (Z.to_nat m) = Some d
                     /\ In d delimiters).
Proof.
  intros text delimiters none Hne ->.
  set (place := fun c => if find_char text c >? -1
                         then find_char text c else len text).
  destruct (min_of_spec (map place delimiters)) as (m & Hm & Hin & Hmin).
  { destruct delimiters; [congruence|discriminate]. }
  exists m. split; [exact Hm|].
  assert (Hplace : forall c,
            (place c = len text /\ ~ In c text)
            \/ exists k : nat, place c = Z.of_nat k
                               /\ nth_error text k = Some c
                               /\ ~ In c (firstn k text)).
  { intros c. unfold place.
    destruct (find_char_spec text c) as [[Hf Hno]|(k & Hf & Hk & Hno)];
      rewrite Hf.
    - left. split; [reflexivity|exact Hno].
    - right. exists k.
      replace (Z.of_nat k >? -1) with true
        by (symmetry; apply Z.gtb_lt; lia).
      auto. }
  apply in_map_iff in Hin. destruct Hin as (d & Hd & Hind).
  split; [|split].
  - destruct (Hplace d) as [[Hp _]|(k & Hp & Hk & _)].
    + pose proof (len_nonneg _ text). lia.
    + pose proof (nth_error_len _ _ _ _ Hk). lia.
  - intros c Hc Hdel.
    assert (Hle : m <= place c) by (apply Hmin; apply in_map; exact Hdel).
    destruct (Hplace c) as [[_ Hno]|(k & Hp & _ & Hno)].
    + apply Hno. rewrite <- (firstn_skipn (Z.to_nat m) text).
      apply in_or_app. left. exact Hc.
    + apply Hno. apply firstn_incl with (b := k) in Hc; [exact Hc|lia].
  - destruct (Hplace d) as [[Hp _]|(k & Hp & Hk & _)].
    + left. congruence.
    + right. exists d. replace (Z.to_nat m) with k by lia. auto.
Qed.

(** X18: the word [_select_word] selects around a cursor inside its line,
    for any delimiters (at least one): it reaches [start] characters to the
    left and [end] characters to the right of the cursor, none of which is a
    delimiter, and it cannot be longer: on the left it stops at the start of
    the line or right after a delimiter, on the right at the end of the
    line or right before one.  The selection it schedules goes from the
    cursor's index less [start] to the cursor's index plus [end]. *)
Theorem select_word_spans_word : forall st delimiters row line,
  delimiters <> [] ->
  snd (_cursor st) = Z.of_nat row ->
  nth_error (_lines st) row = Some line ->
  0 <= fst (_cursor st) <= len line ->
  exists start end_,
    _select_word st delimiters
    = Ok (cursor_index st None - start, cursor_index st None + end_)
    /\ 0 <= start <= fst (_cursor st)
    /\ 0 <= end_ <= len line - fst (_cursor st)
    /\ (forall c,
          In c (skipn (Z.to_nat (fst (_cursor st) - start))
                  (firstn (Z.to_nat (fst (_cursor st))) line)) ->
          ~ In c delimiters)
    /\ (forall c,
          In c (firstn (Z.to_nat end_)
                  (skipn (Z.to_nat (fst (_cursor st))) line)) ->
          ~ In c delimiters)
    /\ (start = fst (_cursor st)
        \/ exists d,
             nth_error line (Z.to_nat (fst (_cursor st) - start - 1))
             = Some d /\ In d delimiters)
    /\ (end_ = len line - fst (_cursor st)
        \/ exists d,
             nth_error line (Z.to_nat (fst (_cursor st) + end_)) = Some d
             /\ In d delimiters).
Proof.
  intros st delimiters row line Hne Hrow Hline Hcol.
  set (col := fst (_cursor st)) in *.
  unfold _select_word. rewrite Hrow, (getitem_nat _ _ _ _ Hline).
  cbn [rbind]. fold col.
  rewrite slice_prefix, slice_suffix by exact Hcol.
  set (before := firstn (Z.to_nat col) line).
  set (after := skipn (Z.to_nat col) line).
  assert (Hbefore : len before = col).
  { unfold before, len in *. rewrite length_firstn. lia. }
  assert (Hafter : len after = len line - col).
  { unfold after, len in *. rewrite length_skipn. lia. }
  destruct (last_delimiter_spec before delimiters Hne)
    as (m & Hm & Hmr & Hmno & Hmd).
  destruct (first_delimiter_spec after delimiters (len line - col) Hne
              (eq_sym Hafter)) as (e & He & Her & Heno & Hed).
  rewrite Hm. cbn [rbind]. rewrite He. cbn [rbind].
  rewrite Hbefore.
  replace (Z.max 0 (col - m - 1)) with (col - m - 1) by lia.
  exists (col - m - 1), e.
  split; [reflexivity|]. split; [lia|]. split; [lia|].
  split.
  { replace (col - (col - m - 1)) with (m + 1) by lia. exact Hmno. }
  split; [exact Heno|]. split.
  - destruct Hmd as [->|(d & Hd & Hin)]; [left; lia|].
    right. exists d. split; [|exact Hin].
    replace (col - (col - m - 1) - 1) with m by lia.
    unfold before in Hd. rewrite nth_error_firstn in Hd.
    destruct (Z.to_nat m <? Z.to_nat col)%nat; [exact Hd|discriminate].
  - destruct Hed as [->|(d & Hd & Hin)]; [left; lia|].
    right. exists d. split; [|exact Hin].
    unfold after in Hd. rewrite nth_error_skipn in Hd.
    replace (Z.to_nat (col + e)) with (Z.to_nat col + Z.to_nat e)%nat
      by lia.
    exact Hd.
Qed.

Lemma select_word_spans_word_witness :
  exists start end_,
    _select_word (with_cursor (4, 0) (reflowed no_wrap (s "ab cde, f")))
      select_word_delimiters
    = Ok (cursor_index
            (with_cursor (4, 0) (reflowed no_wrap (s "ab cde, f"))) None
          - start,
          cursor_index
            (with_cursor (4, 0) (reflowed no_wrap (s "ab cde, f"))) None
          + end_)
    /\ 0 <= start <= 4 /\ 0 <= end_.
Proof.
  destruct (select_word_spans_word
              (with_cursor (4, 0) (reflowed no_wrap (s "ab cde, f")))
              select_word_delimiters 0 (s "ab cde, f"))
    as (start & end_ & H & Hs & He & _).
  - discriminate.
  - reflexivity.
  - reflexivity.
  - vm_compute. split; discriminate.
  - exists start, end_. split; [exact H|]. split; [exact Hs|]. apply He.
Defined.

(** ** The text-input refresh *)





Lemma firstn_app_exact : forall (A : Type) (a b : list A),
  firstn (length a) (a ++ b) = a.
Proof.
  intros A a b. rewrite firstn_app, Nat.sub_diag, firstn_all. simpl.
  apply app_nil_r.
Qed.

Lemma skipn_app_exact : forall (A : Type) (a b : list A),
  skipn (length a) (a ++ b) = b.
Proof.
  intros A a b. rewrite skipn_app, Nat.sub_diag, skipn_all. reflexivity.
Qed.

Lemma slice_middle : forall (A : Type) (a b : list A),
  slice (a ++ b) (Some (len a)) (Some (len a + len b)) = b.
Proof.
  intros A a b. unfold slice, slice_bound, substring.
  pose proof (len_nonneg _ a). pose proof (len_nonneg _ b).
  rewrite len_app.
  replace (len a <? 0) with false by (symmetry; apply Z.ltb_ge; lia).
  replace (len a + len b <? 0) with false
    by (symmetry; apply Z.ltb_ge; lia).
  rewrite !Z.min_l by lia. unfold len.
  rewrite Nat2Z.id, skipn_app_exact.
  replace (Z.to_nat (Z.of_nat (length a) + Z.of_nat (length b))
           - length a)%nat with (length b) by lia.
  apply firstn_all.
Qed.

Lemma setslice_tail : forall (A : Type) (a b chunk : list A),
  setslice (a ++ b) (len a) (len a + len b) chunk = a ++ chunk.
Proof.
  intros A a b chunk. unfold setslice, slice_bound.
  pose proof (len_nonneg _ a). pose proof (len_nonneg _ b).
  rewrite len_app.
  replace (len a <? 0) with false by (symmetry; apply Z.ltb_ge; lia).
  replace (len a + len b <? 0) with false
    by (symmetry; apply Z.ltb_ge; lia).
  rewrite !Z.min_l by lia. rewrite Z.max_r by lia. unfold len.
  rewrite Nat2Z.id, firstn_app_exact.
  replace (Z.to_nat (Z.of_nat (length a) + Z.of_nat (length b)))
    with (length (a ++ b)) by (rewrite length_app; lia).
  rewrite skipn_all, app_nil_r. reflexivity.
Qed.

(** X15: when the diff of the old and the new lines is one unchanged run
    followed by one changed run, which is the shape appending to a text
    gives, the loop over the opcodes leaves exactly the new lines: the kept
    lines, the common ones, and the new tail in place of the old one,
    whether the change is tagged replace, insert or delete (with nothing
    new). *)
Theorem opcodes_tail_change : forall keep common old_tail new_tail t,
  t = tag_replace \/ t = tag_insert \/ (t = tag_delete /\ new_tail = []) ->
  apply_opcodes
    [(tag_equal, 0, len common, 0, len common);
     (t, len common, len common + len old_tail,
         len common, len common + len new_tail)]
    (len keep) (keep ++ common ++ new_tail) (keep ++ common ++ old_tail)
  = keep ++ common ++ new_tail.
Proof.
  intros keep common old_tail new_tail t Ht.
  cbn [apply_opcodes].
  replace (len common + len keep) with (len (keep ++ common))
    by (rewrite len_app; lia).
  replace (len common + len old_tail + len keep)
    with (len (keep ++ common) + len old_tail)
    by (rewrite len_app; lia).
  replace (len common + len new_tail + len keep)
    with (len (keep ++ common) + len new_tail)
    by (rewrite len_app; lia).
  rewrite !app_assoc.
  destruct Ht as [->|[->|[-> ->]]].
  - rewrite slice_middle, setslice_tail. reflexivity.
  - rewrite slice_middle, setslice_tail. reflexivity.
  - rewrite setslice_tail. reflexivity.
Qed.

Lemma opcodes_tail_change_witness :
  apply_opcodes
    [(tag_equal, 0, len [s "def"], 0, len [s "def"]);
     (tag_replace, len [s "def"], len [s "def"] + len [s "gh"],
        len [s "def"], len [s "def"] + len [s "ghi"; s "j"])]
    (len [s "abc"]) ([s "abc"] ++ [s "def"] ++ [s "ghi"; s "j"])
    ([s "abc"] ++ [s "def"] ++ [s "gh"])
  = [s "abc"] ++ [s "def"] ++ [s "ghi"; s "j"].
Proof.
  apply (opcodes_tail_change [s "abc"] [s "def"] [s "gh"] [s "ghi"; s "j"]
           tag_replace).
  left. reflexivity.
Defined.

(** ** The viewport *)

Lemma scroll_after_adjust : forall offset s extent,
  0 <= extent ->
  let s' := if offset - s >=? extent then offset - extent
            else if offset <? s + 1 then offset else s in
  s' <= offset <= s' + extent
  /\ (if offset - s' >=? extent then offset - extent
      else if offset <? s' + 1 then offset else s') = s'.
Proof.
  intros offset s extent H. cbv zeta.
  destruct (offset - s >=? extent) eqn:E1.
  - rewrite Z.geb_leb in E1. apply Z.leb_le in E1.
    split; [lia|].
    replace (offset - (offset - extent) >=? extent) with true
      by (symmetry; rewrite Z.geb_leb; apply Z.leb_le; lia).
    reflexivity.
  - rewrite Z.geb_leb in E1. apply Z.leb_gt in E1.
    destruct (offset <? s + 1) eqn:E2.
    + apply Z.ltb_lt in E2. split; [lia|].
      destruct (offset - offset >=? extent) eqn:E3.
      * rewrite Z.geb_leb in E3. apply Z.leb_le in E3. lia.
      * replace (offset <? offset + 1) with true
          by (symmetry; apply Z.ltb_lt; lia).
        reflexivity.
    + apply Z.ltb_ge in E2. split; [lia|].
      replace (offset - s >=? extent) with false
        by (symmetry; rewrite Z.geb_leb; apply Z.leb_gt; lia).
      replace (offset <? s + 1) with false
        by (symmetry; apply Z.ltb_ge; lia).
      reflexivity.
Qed.

Lemma scroll_y_after_adjust : forall offset s extent,
  0 <= extent ->
  let s' := if offset >? extent + s then offset - extent
            else if offset <? s then offset else s in
  s' <= offset <= s' + extent
  /\ (if offset >? extent + s' then offset - extent
      else if offset <? s' then offset else s') = s'.
Proof.
  intros offset s extent H. cbv zeta.
  destruct (offset >? extent + s) eqn:E1.
  - apply Z.gtb_lt in E1. split; [lia|].
    replace (offset >? extent + (offset - extent)) with false
      by (symmetry; rewrite Z.gtb_ltb; apply Z.ltb_ge; lia).
    replace (offset <? offset - extent) with false
      by (symmetry; apply Z.ltb_ge; lia).
    reflexivity.
  - rewrite Z.gtb_ltb in E1. apply Z.ltb_ge in E1.
    destruct (offset <? s) eqn:E2.
    + apply Z.ltb_lt in E2. split; [lia|].
      replace (offset >? extent + offset) with false
        by (symmetry; rewrite Z.gtb_ltb; apply Z.ltb_ge; lia).
      rewrite Z.ltb_irrefl. reflexivity.
    + apply Z.ltb_ge in E2. split; [lia|].
      replace (offset >? extent + s) with false
        by (symmetry; rewrite Z.gtb_ltb; apply Z.ltb_ge; lia).
      replace (offset <? s) with false by (symmetry; apply Z.ltb_ge; lia).
      reflexivity.
Qed.

(** X16: in a multiline widget whose viewport has a width and a height that
    are not negative, [_adjust_viewport] leaves the cursor inside the
    viewport: its horizontal offset lies between the horizontal scroll and
    the scroll plus the viewport width, and the top of its row between the
    vertical scroll and the scroll plus the viewport height less one row.
    Adjusting once is enough: a second call changes nothing.  Text, lines
    and cursor are not touched. *)
Theorem adjust_viewport_shows_cursor : forall o cc cr g st offset,
  multiline o = true ->
  0 <= width o ->
  0 <= viewport_height g ->
  cursor_offset o st = Ok offset ->
  exists g' st',
    _adjust_viewport o cc cr g st = Ok (g', st')
    /\ scroll_x st' <= offset <= scroll_x st' + width o
    /\ scroll_y g' <= cr * (line_height g + line_spacing g)
       <= scroll_y g' + viewport_height g
    /\ _adjust_viewport o cc cr g' st' = Ok (g', st')
    /\ _lines st' = _lines st
    /\ _cursor st' = _cursor st
    /\ _current_text st' = _current_text st.
Proof.
  intros o cc cr g st offset Hmulti Hwidth Hheight Hoffset.
  destruct (scroll_after_adjust offset (scroll_x st) (width o) Hwidth)
    as [Hx Hxx].
  destruct (scroll_y_after_adjust (cr * (line_height g + line_spacing g))
              (scroll_y g) (viewport_height g) Hheight) as [Hy Hyy].
  unfold _adjust_viewport at 1. rewrite Hoffset. cbn [rbind].
  rewrite Hmulti. cbn [negb andb].
  eexists. eexists. split; [reflexivity|].
  cbn [scroll_x with_scroll_x scroll_y with_scroll_y _lines _cursor
       _current_text].
  split; [exact Hx|]. split; [exact Hy|]. split; [|auto].
  unfold _adjust_viewport.
  replace (cursor_offset o (with_scroll_x _ st)) with (Ok offset)
    by (rewrite <- Hoffset; reflexivity).
  cbn [rbind]. rewrite Hmulti. cbn [negb andb].
  cbn [scroll_x with_scroll_x scroll_y with_scroll_y line_height
       line_spacing].
  change (viewport_height (with_scroll_y _ g)) with (viewport_height g).
  rewrite Hxx, Hyy. reflexivity.
Qed.

Lemma adjust_viewport_shows_cursor_witness :
  exists g' st',
    _adjust_viewport (wrap_at 3) 1 3
      {| height := 40; padding_top := 0; padding_bottom := 0;
         line_height := 10; line_spacing := 0; scroll_y := 0;
         halign := halign_auto; base_dir_rtl := false; readonly := false;
         _get_row_width := fun _ => 3 |}
      (with_cursor (1, 3) (reflowed (wrap_at 3) two_paragraphs))
    = Ok (g', st')
    /\ scroll_x st' <= 1 <= scroll_x st' + 3.
Proof.
  destruct (adjust_viewport_shows_cursor (wrap_at 3) 1 3
              {| height := 40; padding_top := 0; padding_bottom := 0;
                 line_height := 10; line_spacing := 0; scroll_y := 0;
                 halign := halign_auto; base_dir_rtl := false;
                 readonly := false; _get_row_width := fun _ => 3 |}
              (with_cursor (1, 3) (reflowed (wrap_at 3) two_paragraphs)) 1)
    as (g' & st' & H & Hx & _).
  - reflexivity.
  - vm_compute. discriminate.
  - vm_compute. discriminate.
  - reflexivity.
  - exists g', st'. split; [exact H|exact Hx].
Defined.

(** ** Moving the cursor by a row *)

Lemma nth_error_before : forall (A : Type) (l : list A) (n m : nat) (a : A),
  nth_error l n = Some a -> (m <= n)%nat -> exists b, nth_error l m = Some b.
Proof.
  intros A l n m a H Hm.
  destruct (nth_error l m) as [b|] eqn:E; [eauto|].
  apply nth_error_None in E.
  assert ((n < length l)%nat) by (apply nth_error_Some; congruence). lia.
Qed.

(** X17: [_move_cursor_up], from a cursor inside the lines, never raises.
    With control in a multiline widget the cursor is returned as it is and
    the vertical scroll becomes max(0, scroll_y - line_height), nothing
    else changing; failing that, with alt in a multiline widget that is not
    read-only, nothing is returned and nothing changes; otherwise the
    cursor goes to the row above, or stays on the first row, at the same
    column or at the end of that row if it is shorter, which is a cursor
    inside the lines, and the scroll is untouched. *)
Theorem move_cursor_up_stays_inside : forall o col row line control alt g st,
  nth_error (_lines st) row = Some line ->
  0 <= col <= len line ->
  exists moved g',
    _move_cursor_up o col (Z.of_nat row) control alt g st = Ok (moved, g')
    /\ (multiline o && control = true ->
        moved = Some (col, Z.of_nat row)
        /\ scroll_y g' = Z.max 0 (scroll_y g - line_height g)
        /\ 0 <= scroll_y g'
        /\ g' = with_scroll_y (scroll_y g') g)
    /\ (multiline o && control = false ->
        negb (readonly g) && multiline o && alt = true ->
        moved = None /\ g' = g)
    /\ (multiline o && control = false ->
        negb (readonly g) && multiline o && alt = false ->
        g' = g
        /\ exists line',
             nth_error (_lines st) (Nat.pred row) = Some line'
             /\ moved = Some (Z.min (len line') col, Z.of_nat (Nat.pred row))
             /\ 0 <= Z.min (len line') col <= len line').
Proof.
  intros o col row line control alt g st Hline Hcol.
  unfold _move_cursor_up.
  destruct (multiline o && control) eqn:Ec.
  - eexists. eexists. split; [reflexivity|].
    split; [|split; discriminate].
    intros _. cbn [scroll_y with_scroll_y].
    split; [reflexivity|]. split; [reflexivity|]. split; [lia|reflexivity].
  - destruct (negb (readonly g) && multiline o && alt) eqn:Ea.
    + eexists. eexists. split; [reflexivity|].
      split; [discriminate|]. split; [auto|discriminate].
    + destruct (nth_error_before _ _ row (Nat.pred row) _ Hline
                  ltac:(lia)) as [line' Hline'].
      replace (Z.max (Z.of_nat row - 1) 0) with (Z.of_nat (Nat.pred row))
        by lia.
      rewrite (getitem_nat _ _ _ _ Hline'). cbn [rbind].
      eexists. eexists. split; [reflexivity|].
      split; [discriminate|]. split; [discriminate|].
      intros _ _. split; [reflexivity|].
      exists line'. pose proof (len_nonneg _ line').
      split; [exact Hline'|]. split; [reflexivity|lia].
Qed.

Lemma move_cursor_up_stays_inside_witness :
  exists moved g',
    _move_cursor_up (wrap_at 3) 3 (Z.of_nat 3) false false
      {| height := 40; padding_top := 0; padding_bottom := 0;
         line_height := 10; line_spacing := 0; scroll_y := 0;
         halign := halign_auto; base_dir_rtl := false; readonly := false;
         _get_row_width := fun _ => 3 |}
      (reflowed (wrap_at 3) (s "aa bb cc" ++ [nl] ++ s "zzz"))
    = Ok (moved, g').
Proof.
  destruct (move_cursor_up_stays_inside (wrap_at 3) 3 3 (s "zzz") false
              false
              {| height := 40; padding_top := 0; padding_bottom := 0;
                 line_height := 10; line_spacing := 0; scroll_y := 0;
                 halign := halign_auto; base_dir_rtl := false;
                 readonly := false; _get_row_width := fun _ => 3 |}
              (reflowed (wrap_at 3) (s "aa bb cc" ++ [nl] ++ s "zzz")))
    as (moved & g' & H & _).
  - reflexivity.
  - vm_compute. split; discriminate.
  - exists moved, g'. exact H.
Defined.

(** X19: [_move_cursor_down], from a cursor inside the lines, never raises.
    With control in a multiline widget the cursor is returned as it is and
    the vertical scroll becomes
    max(0, min(minimum_height - height, scroll_y + line_height)), which is
    never negative and, when the content is at least as high as the widget,
    never past the content, nothing else changing; failing that, with alt
    in a multiline widget that is not read-only, nothing is returned and
    nothing changes; otherwise the cursor goes to the row below, or stays
    on the last row, at the same column or at the end of that row if it is
    shorter, which is a cursor inside the lines, and the scroll is
    untouched. *)
Theorem move_cursor_down_stays_inside : forall o col row line control alt g
  st,
  nth_error (_lines st) row = Some line ->
  0 <= col <= len line ->
  exists moved g',
    _move_cursor_down o col (Z.of_nat row) control alt g st
    = Ok (moved, g')
    /\ (multiline o && control = true ->
        moved = Some (col, Z.of_nat row)
        /\ scroll_y g'
           = Z.max 0 (Z.min (minimum_height g st - height g)
                        (scroll_y g + line_height g))
        /\ 0 <= scroll_y g'
        /\ (0 <= minimum_height g st - height g ->
            scroll_y g' <= minimum_height g st - height g)
        /\ g' = with_scroll_y (scroll_y g') g)
    /\ (multiline o && control = false ->
        negb (readonly g) && multiline o && alt = true ->
        moved = None /\ g' = g)
    /\ (multiline o && control = false ->
        negb (readonly g) && multiline o && alt = false ->
        g' = g
        /\ exists line',
             nth_error (_lines st)
               (Nat.min (S row) (Nat.pred (length (_lines st))))
             = Some line'
             /\ moved
                = Some (Z.min (len line') col,
                        Z.of_nat (Nat.min (S row)
                                    (Nat.pred (length (_lines st)))))
             /\ 0 <= Z.min (len line') col <= len line').
Proof.
  intros o col row line control alt g st Hline Hcol.
  unfold _move_cursor_down.
  destruct (multiline o && control) eqn:Ec.
  - eexists. eexists. split; [reflexivity|].
    split; [|split; discriminate].
    intros _. cbn [scroll_y with_scroll_y].
    split; [reflexivity|]. split; [reflexivity|]. split; [lia|].
    split; [lia|reflexivity].
  - destruct (negb (readonly g) && multiline o && alt) eqn:Ea.
    + eexists. eexists. split; [reflexivity|].
      split; [discriminate|]. split; [auto|discriminate].
    + assert (Hrow : (row < length (_lines st))%nat)
        by (apply nth_error_Some; congruence).
      set (below := Nat.min (S row) (Nat.pred (length (_lines st)))).
      destruct (nth_error (_lines st) below) as [line'|] eqn:Hline';
        [|apply nth_error_None in Hline'; unfold below in Hline'; lia].
      replace (Z.min (Z.of_nat row + 1) (len (_lines st) - 1))
        with (Z.of_nat below) by (unfold below, len; lia).
      rewrite (getitem_nat _ _ _ _ Hline'). cbn [rbind].
      eexists. eexists. split; [reflexivity|].
      split; [discriminate|]. split; [discriminate|].
      intros _ _. split; [reflexivity|].
      exists line'. pose proof (len_nonneg _ line').
      split; [reflexivity|]. split; [reflexivity|lia].
Qed.

Lemma move_cursor_down_stays_inside_witness :
  exists moved g',
    _move_cursor_down (wrap_at 3) 3 (Z.of_nat 1) false false
      {| height := 40; padding_top := 0; padding_bottom := 0;
         line_height := 10; line_spacing := 0; scroll_y := 0;
         halign := halign_auto; base_dir_rtl := false; readonly := false;
         _get_row_width := fun _ => 3 |}
      (reflowed (wrap_at 3) two_paragraphs)
    = Ok (moved, g').
Proof.
  destruct (move_cursor_down_stays_inside (wrap_at 3) 3 1 (s "bb ") false
              false
              {| height := 40; padding_top := 0; padding_bottom := 0;
                 line_height := 10; line_spacing := 0; scroll_y := 0;
                 halign := halign_auto; base_dir_rtl := false;
                 readonly := false; _get_row_width := fun _ => 3 |}
              (reflowed (wrap_at 3) two_paragraphs))
    as (moved & g' & H & _).
  - reflexivity.
  - vm_compute. split; discriminate.
  - exists moved, g'. exact H.
Defined.

(** ** Expanding rows *)

Lemma expand_left_bounds : forall fuel flags rfrom,
  rfrom <= len flags ->
  exists r, expand_left fuel flags rfrom = Ok r
            /\ r <= rfrom /\ (0 <= rfrom -> 0 <= r).
Proof.
  induction fuel as [|fuel IH]; intros flags rfrom H; cbn [expand_left];
    (destruct (0 <? rfrom) eqn:E;
     [apply Z.ltb_lt in E|exists rfrom; split; [reflexivity|lia]]);
    (destruct (getitem_in_range _ flags (rfrom - 1) ltac:(lia))
       as (flag & Hflag & _)); rewrite Hflag;
    (destruct (has_flag flag FL_IS_NEWLINE);
     [exists rfrom; split; [reflexivity|lia]|]).
  - exists rfrom. split; [reflexivity|lia].
  - destruct (IH flags (rfrom - 1) ltac:(lia)) as (r & Hr & H1 & H2).
    exists r. split; [exact Hr|lia].
Qed.

Lemma expand_right_bounds : forall fuel flags rmax rto,
  rmax <= len flags ->
  exists r, expand_right fuel flags rmax rto = Ok r
            /\ rto <= r <= Z.max rto rmax.
Proof.
  induction fuel as [|fuel IH]; intros flags rmax rto H;
    cbn [expand_right];
    (destruct ((0 <? rto) && (rto <? rmax)) eqn:E;
     [apply andb_true_iff in E; destruct E as [E1 E2];
      apply Z.ltb_lt in E1; apply Z.ltb_lt in E2
     |exists rto; split; [reflexivity|lia]]);
    (destruct (getitem_in_range _ flags (rto - 1) ltac:(lia))
       as (flag & Hflag & _)); rewrite Hflag;
    (destruct (has_flag flag FL_IS_NEWLINE);
     [exists rto; split; [reflexivity|lia]|]).
  - exists rto. split; [reflexivity|lia].
  - destruct (IH flags rmax (rto + 1) H) as (r & Hr & H1).
    exists r. split; [exact Hr|lia].
Qed.

Lemma len_rev : forall (A : Type) (l : list A), len (rev l) = len l.
Proof. intros A l. unfold len. rewrite length_rev. reflexivity. Qed.

(** X20: [_expand_rows], in a widget whose lines have a flag each, never
    raises for a start row that exists and an end row that is missing or
    not before it: both loops stay inside the flags.  The rows it returns
    exist and enclose the start row, and the end row is not before the one
    given, as far as there are rows. *)
Theorem expand_rows_encloses_row : forall st rfrom rto,
  length (_lines st) = length (_lines_flags st) ->
  0 <= rfrom < len (_lines st) ->
  match rto with Some r => rfrom <= r | None => True end ->
  exists a b,
    _expand_rows st rfrom rto = Ok (a, b)
    /\ 0 <= a <= rfrom
    /\ rfrom <= b <= len (_lines st) - 1
    /\ match rto with
       | Some r => Z.min r (len (_lines st) - 1) <= b
       | None => True
       end.
Proof.
  intros st rfrom rto Hlen Hrow Hrto. unfold _expand_rows.
  assert (Hflags : len (rev (_lines_flags st)) = len (_lines st))
    by (rewrite len_rev; unfold len; rewrite Hlen; reflexivity).
  destruct (expand_left_bounds (Z.to_nat rfrom) (rev (_lines_flags st))
              rfrom ltac:(lia)) as (a & Ha & Ha1 & Ha2).
  rewrite Ha. cbn [rbind].
  set (rto' := match rto with
               | Some r => if r =? rfrom then rfrom + 1 else r
               | None => rfrom + 1
               end).
  destruct (expand_right_bounds (Z.to_nat (len (_lines st) - 1 - rto'))
              (rev (_lines_flags st)) (len (_lines st) - 1) rto'
              ltac:(lia)) as (b & Hb & Hb1).
  rewrite Hb. cbn [rbind].
  exists (Z.max 0 a), (Z.min (len (_lines st) - 1) b).
  split; [reflexivity|].
  assert (Hr : rfrom < rto'
               /\ match rto with Some r => r <= rto' | None => True end).
  { unfold rto'. destruct rto as [r|]; [|lia].
    destruct (r =? rfrom) eqn:E; [apply Z.eqb_eq in E|apply Z.eqb_neq in E];
      lia. }
  destruct Hr as [Hr1 Hr2].
  split; [lia|]. split; [lia|].
  destruct rto as [r|]; [lia|exact I].
Qed.

Lemma expand_rows_encloses_row_witness :
  exists a b,
    _expand_rows (reflowed (wrap_at 3) two_paragraphs) 1 (Some 2)
    = Ok (a, b)
    /\ 0 <= a <= 1 /\ 1 <= b.
Proof.
  destruct (expand_rows_encloses_row (reflowed (wrap_at 3) two_paragraphs)
              1 (Some 2)) as (a & b & H & Ha & Hb & _).
  - reflexivity.
  - vm_compute. split; [discriminate|reflexivity].
  - vm_compute. discriminate.
  - exists a, b. split; [exact H|]. split; [exact Ha|]. apply Hb.
Defined.

(** X21: [_expand_range] of one index, in the widget of any reflow, never
    raises, whatever the integer: it returns two flat indices of the text,
    in order, the first of them not past the given index clamped into the
    text. *)
Theorem expand_range_within_text : forall o text index,
  exists ifrom ito,
    _expand_range (reflowed o text) index None = Ok (ifrom, ito)
    /\ 0 <= ifrom <= boundary index 0 (len text)
    /\ ifrom <= ito <= len text.
Proof.
  intros o text index.
  destruct (reflowed_model o text) as [Hlen Htext _].
  destruct (get_cursor_located (reflowed o text) index
              (reflowed_model o text) (reflowed_nonempty o text))
    as (col & row & line & Hget & Hl & Hcol & Hindex).
  set (st := reflowed o text) in *.
  change (len (_current_text st)) with (len text) in Hindex.
  pose proof (nth_error_len _ _ _ _ Hl) as Hrow.
  unfold _expand_range. rewrite Hget. cbn [rbind snd].
  assert (Hflags : len (rev (_lines_flags st)) = len (_lines st))
    by (rewrite len_rev; unfold len; rewrite Hlen; reflexivity).
  unfold _expand_rows.
  destruct (expand_left_bounds (Z.to_nat (Z.of_nat row))
              (rev (_lines_flags st)) (Z.of_nat row) ltac:(lia))
    as (a & Ha & Ha1 & Ha2).
  rewrite Ha. cbn [rbind].
  set (rto' := if (if col =? 0 then Z.of_nat row else Z.of_nat row + 1)
                  =? Z.of_nat row
               then Z.of_nat row + 1
               else if col =? 0 then Z.of_nat row else Z.of_nat row + 1).
  assert (Hrto : rto' = Z.of_nat row + 1).
  { unfold rto'. destruct (col =? 0).
    - rewrite Z.eqb_refl. reflexivity.
    - destruct (Z.of_nat row + 1 =? Z.of_nat row) eqn:E; [|reflexivity].
      apply Z.eqb_eq in E. lia. }
  destruct (expand_right_bounds (Z.to_nat (len (_lines st) - 1 - rto'))
              (rev (_lines_flags st)) (len (_lines st) - 1) rto'
              ltac:(lia)) as (b & Hb & Hb1).
  rewrite Hb. cbn [rbind].
  set (rfrom := Z.max 0 a). set (rto := Z.min (len (_lines st) - 1) b).
  assert (Hfrom : 0 <= rfrom <= Z.of_nat row) by (unfold rfrom; lia).
  assert (Hto : Z.of_nat row <= rto <= len (_lines st) - 1)
    by (unfold rto; lia).
  destruct (nth_error (_lines st) (Z.to_nat rfrom)) as [lfrom|] eqn:Elf;
    [|apply nth_error_None in Elf; unfold len in *; lia].
  destruct (nth_error (_lines st) (Z.to_nat rto)) as [lto|] eqn:Elt;
    [|apply nth_error_None in Elt; unfold len in *; lia].
  pose proof (len_nonneg _ lfrom). pose proof (len_nonneg _ lto).
  eexists. eexists. split; [reflexivity|].
  rewrite <- (Z2Nat.id rfrom) by lia. rewrite <- (Z2Nat.id rto) by lia.
  rewrite <- Hindex, <- Htext.
  destruct (cursor_index_order st 0 (Z.to_nat rfrom) lfrom col row line
              Hlen Elf ltac:(lia) Hl Hcol) as (H1 & H2 & _).
  { destruct (Nat.eq_dec (Z.to_nat rfrom) row) as [E|E];
      [right; split; [exact E|lia]|left; lia]. }
  destruct (cursor_index_order st 0 (Z.to_nat rfrom) lfrom 0
              (Z.to_nat rto) lto Hlen Elf ltac:(lia) Elt ltac:(lia))
    as (_ & H3 & H4).
  { destruct (Nat.eq_dec (Z.to_nat rfrom) (Z.to_nat rto)) as [E|E];
      [right; split; [exact E|lia]|left; lia]. }
  split; [split; [exact H1|exact H2]|]. split; [exact H3|exact H4].
Qed.
